(** * RustAutoComplete: the racer client of the Sublime Text plugin

    A shallow embedding of [RustAutoComplete.py] and the properties of its
    subprocess protocol client: the argument vector handed to racer, the
    parsing of [MATCH] lines into [Result] records, the ranking of
    completions and the navigation to a definition.

    Python values are modelled as follows.
    - [str] is a list of Unicode code points (as [N]);
    - [bytes] is a list of [Byte.byte];
    - [int] is [Z];
    - a raised exception is the [Raise] outcome of [res];
    - [print], [Popen] and [open_file] act on an explicit [World]. *)

From Stdlib Require Import ZArith NArith Lia List Ascii String Strings.Byte Bool.
From Stdlib Require Import Sorted.
From stdpp Require Import base option list gmap.
Import ListNotations.

Local Open Scope Z_scope.

(** ** Python strings and bytes *)

Definition codepoint := N.
Definition str := list codepoint.
Definition bytes := list Byte.byte.

(** An ASCII literal of the source as a [str]. *)
Definition lit (s : string) : str :=
  List.map N_of_ascii (list_ascii_of_string s).

(** An ASCII literal as [bytes]. *)
Definition blit (s : string) : bytes := list_byte_of_string s.

Definition chr (a : ascii) : codepoint := N_of_ascii a.

Arguments lit s%_string.
Arguments blit s%_string.
Arguments chr a%_char.

Definition str_eqb (a b : str) : bool := bool_decide (a = b).

(** [s.startswith(p)] *)
Fixpoint startswith (s p : str) {struct p} : bool :=
  match p, s with
  | [], _ => true
  | c :: p', d :: s' => N.eqb c d && startswith s' p'
  | _ :: _, [] => false
  end.

(** [s[n:]] for a non-negative [n] *)
Definition slice_from (n : nat) (s : str) : str := drop n s.

(** [s[-n:]]: the last [n] code points, the whole string when it is shorter *)
Definition slice_last (n : nat) (s : str) : str :=
  drop (length s - n)%nat s.

(** The text up to the first [sep], and what follows it when [sep] occurs. *)
Fixpoint break_at (sep : codepoint) (s : str) : str * option str :=
  match s with
  | [] => ([], None)
  | c :: s' =>
      if N.eqb c sep then ([], Some s')
      else let '(a, r) := break_at sep s' in (c :: a, r)
  end.

(** [s.split(sep, maxsplit)] for a one-character separator and a
    non-negative [maxsplit]: at most [maxsplit] cuts, from the left. *)
Fixpoint split (sep : codepoint) (maxsplit : nat) (s : str) : list str :=
  match maxsplit with
  | O => [s]
  | S m =>
      match break_at sep s with
      | (a, None) => [a]
      | (a, Some r) => a :: split sep m r
      end
  end.

(** [sep.join(parts)] *)
Fixpoint join (sep : str) (parts : list str) : str :=
  match parts with
  | [] => []
  | [p] => p
  | p :: ps => p ++ sep ++ join sep ps
  end.

(** The fields [fs], each closed by a separator: what precedes the last
    field in [sep.join(fs + [last])]. *)
Definition closed_fields (sep : codepoint) (fs : list str) : str :=
  concat (List.map (fun f => f ++ [sep]) fs).

(** [sep] does not occur in [s]. *)
Definition free_of (sep : codepoint) (s : str) : Prop := sep ∉ s.

(** [l.insert(i, x)]: Python clamps an index beyond the end. *)
Definition list_insert_at {A} (i : nat) (x : A) (l : list A) : list A :=
  take i l ++ x :: drop i l.

(** ** Exceptions *)

Inductive exn :=
  | FileNotFoundError
  | PermissionError
  | OSError
  | IndexError
  | ValueError
  | UnicodeDecodeError
  | UnicodeEncodeError.

#[global] Instance exn_eq_dec : EqDecision exn.
Proof. solve_decision. Defined.

Inductive res (A : Type) :=
  | Ok (a : A)
  | Raise (e : exn).
Arguments Ok {A} a.
Arguments Raise {A} e.

#[global] Instance res_ret : MRet res := fun A a => Ok a.
#[global] Instance res_bind : MBind res := fun A B f m =>
  match m with
  | Ok a => f a
  | Raise e => Raise e
  end.

#[global] Instance res_fmap : FMap res := fun A B f m =>
  match m with
  | Ok a => Ok (f a)
  | Raise e => Raise e
  end.

(** [l[i]] *)
Definition index {A} (l : list A) (i : nat) : res A :=
  match l !! i with
  | Some x => Ok x
  | None => Raise IndexError
  end.

(** ** The interpreter's tables

    What [int()] and [\w] accept outside ASCII depends on the Unicode
    database of the plugin host's interpreter, and the literal grammar on
    its version; the iteration order of a [dict] depends on the version
    too. They are taken as given. *)

Record Interp := {
  (** [Py_UNICODE_ISSPACE] on a code point above ASCII *)
  uc_isspace : codepoint -> bool;
  (** [Py_UNICODE_TODECIMAL] on a code point above ASCII *)
  uc_todecimal : codepoint -> option N;
  (** [Py_UNICODE_ISALNUM] on a code point above ASCII *)
  uc_isalnum : codepoint -> bool;
  (** underscores between digits are accepted by [int()] (PEP 515) *)
  pep515 : bool;
  (** the order in which a [dict] yields keys inserted in the given order *)
  dict_order : list str -> list str
}.

(** ** [str(n)] and [int(s)] *)

Definition is_digit (c : codepoint) : bool :=
  (N.leb 48 c && N.leb c 57)%N.

(** [Py_ISSPACE]: tab, line feed, vertical tab, form feed, carriage
    return, space *)
Definition is_space (c : codepoint) : bool :=
  (N.leb 9 c && N.leb c 13)%N || N.eqb c 32.

Fixpoint digits_fuel (fuel : nat) (n : N) (acc : str) : str :=
  match fuel with
  | O => acc
  | S f =>
      let acc' := (48 + n mod 10)%N :: acc in
      if N.eqb (n / 10) 0 then acc' else digits_fuel f (n / 10)%N acc'
  end.

(** The decimal digits of [n], most significant first. *)
Definition digits (n : N) : str := digits_fuel (S (N.to_nat (N.log2 n))) n [].

(** [str(z)]. No limit on the number of digits is modelled: the
    interpreters that refuse long decimal texts (CPython from 3.11 on,
    beyond 4300 digits by default) differ from this for longer numbers. *)
Definition str_of_int (z : Z) : str :=
  match z with
  | Z0 => [48%N]
  | Zpos p => digits (Npos p)
  | Zneg p => 45%N :: digits (Npos p)
  end.

(** The text is brought to ASCII first: a space or a decimal digit above
    ASCII is replaced by its ASCII counterpart, anything else above ASCII
    is not a literal. *)
Fixpoint to_ascii_decimal (py : Interp) (s : str) : option str :=
  match s with
  | [] => Some []
  | c :: s' =>
      if N.ltb c 128 then cons c <$> to_ascii_decimal py s'
      else if uc_isspace py c then cons 32%N <$> to_ascii_decimal py s'
      else match uc_todecimal py c with
           | Some d => cons (48 + d)%N <$> to_ascii_decimal py s'
           | None => None
           end
  end.

Fixpoint lstrip (s : str) : str :=
  match s with
  | c :: s' => if is_space c then lstrip s' else s
  | [] => []
  end.

(** The run of digits (and, under PEP 515, single underscores between
    digits) with its value; [prev_us] tells that the previous character
    was an underscore. *)
Fixpoint scan_digits (us prev_us : bool) (acc : Z) (s : str) : option (Z * str) :=
  match s with
  | [] => if prev_us then None else Some (acc, [])
  | c :: s' =>
      if is_digit c then scan_digits us false (10 * acc + Z.of_N (c - 48)) s'
      else if us && N.eqb c 95 then
        if prev_us then None else scan_digits us true acc s'
      else if prev_us then None else Some (acc, s)
  end.

(** The value of a run of decimal digits read after the value [a]. *)
Definition digits_value (a : Z) (s : str) : Z :=
  foldl (fun a c => 10 * a + Z.of_N (c - 48)) a s.

(** [int(s)], base ten. As for [str_of_int], no limit on the number of
    digits is modelled. *)
Definition int_of_str (py : Interp) (s : str) : res Z :=
  match to_ascii_decimal py s with
  | None => Raise ValueError
  | Some a =>
      let a1 := lstrip a in
      let '(sign, a2) :=
        match a1 with
        | c :: r =>
            if N.eqb c 43 then (1, r)
            else if N.eqb c 45 then (-1, r)
            else (1, a1)
        | [] => (1, a1)
        end in
      match a2 with
      | c :: _ =>
          if is_digit c then
            match scan_digits (pep515 py) false 0 a2 with
            | Some (v, rest) =>
                match lstrip rest with
                | [] => Ok (sign * v)
                | _ :: _ => Raise ValueError
                end
            | None => Raise ValueError
            end
          else Raise ValueError
      | [] => Raise ValueError
      end
  end.

(** ** UTF-8 *)

Definition byte_of (n : N) : Byte.byte := default Byte.x00 (Byte.of_N n).

(** [s.encode("utf-8")]: a surrogate cannot be encoded. *)
Fixpoint utf8_encode (s : str) : res bytes :=
  match s with
  | [] => Ok []
  | c :: s' =>
      rest ← utf8_encode s';
      if (c <? 128)%N then Ok (byte_of c :: rest)
      else if (c <? 2048)%N then
        Ok (byte_of (192 + c / 64) :: byte_of (128 + c mod 64) :: rest)
      else if (c <? 65536)%N then
        if (55296 <=? c)%N && (c <=? 57343)%N then Raise UnicodeEncodeError
        else Ok (byte_of (224 + c / 4096) :: byte_of (128 + (c / 64) mod 64)
                   :: byte_of (128 + c mod 64) :: rest)
      else if (c <? 1114112)%N then
        Ok (byte_of (240 + c / 262144) :: byte_of (128 + (c / 4096) mod 64)
              :: byte_of (128 + (c / 64) mod 64) :: byte_of (128 + c mod 64)
              :: rest)
      else Raise UnicodeEncodeError
  end.

(** A continuation byte, [10xxxxxx]. *)
Definition is_cont (b : Byte.byte) : bool :=
  (128 <=? Byte.to_N b)%N && (Byte.to_N b <=? 191)%N.

Definition cont_bits (b : Byte.byte) : N := (Byte.to_N b - 128)%N.

(** [b.decode("utf-8")], strict: overlong forms, surrogates, code points
    beyond U+10FFFF and truncated sequences are refused. *)
Fixpoint utf8_decode (b : bytes) : res str :=
  match b with
  | [] => Ok []
  | b0 :: r0 =>
      let n0 := Byte.to_N b0 in
      if (n0 <? 128)%N then cons n0 <$> utf8_decode r0
      else if (n0 <? 194)%N then Raise UnicodeDecodeError
      else if (n0 <? 224)%N then
        match r0 with
        | b1 :: r1 =>
            if is_cont b1
            then cons ((n0 - 192) * 64 + cont_bits b1)%N <$> utf8_decode r1
            else Raise UnicodeDecodeError
        | _ => Raise UnicodeDecodeError
        end
      else if (n0 <? 240)%N then
        match r0 with
        | b1 :: b2 :: r2 =>
            let c := ((n0 - 224) * 4096 + cont_bits b1 * 64 + cont_bits b2)%N in
            if is_cont b1 && is_cont b2 && (2048 <=? c)%N
               && negb ((55296 <=? c)%N && (c <=? 57343)%N)
            then cons c <$> utf8_decode r2
            else Raise UnicodeDecodeError
        | _ => Raise UnicodeDecodeError
        end
      else if (n0 <? 245)%N then
        match r0 with
        | b1 :: b2 :: b3 :: r3 =>
            let c := ((n0 - 240) * 262144 + cont_bits b1 * 4096
                      + cont_bits b2 * 64 + cont_bits b3)%N in
            if is_cont b1 && is_cont b2 && is_cont b3
               && (65536 <=? c)%N && (c <? 1114112)%N
            then cons c <$> utf8_decode r3
            else Raise UnicodeDecodeError
        | _ => Raise UnicodeDecodeError
        end
      else Raise UnicodeDecodeError
  end.

(** [b.splitlines()] on bytes: a line ends at [\n], [\r] or [\r\n]; the
    terminators are dropped and a final terminator opens no empty line.
    [cur] is the current line, reversed. *)
Fixpoint splitlines_from (cur : bytes) (b : bytes) : list bytes :=
  match b with
  | [] => match cur with [] => [] | _ => [rev cur] end
  | c :: b' =>
      match c with
      | Byte.x0a => rev cur :: splitlines_from [] b'
      | Byte.x0d =>
          match b' with
          | Byte.x0a :: b'' => rev cur :: splitlines_from [] b''
          | _ => rev cur :: splitlines_from [] b'
          end
      | _ => splitlines_from (c :: cur) b'
      end
  end.

Definition splitlines (b : bytes) : list bytes := splitlines_from [] b.

(** ** The world the plugin acts on *)

(** An argument of [print]. *)
Inductive PyVal :=
  | PStr (s : str)
  | PInt (z : Z)
  | PBytes (b : bytes).

(** One call of [Popen]: the argument vector, the environment of the
    child, and whether [STARTF_USESHOWWINDOW] was set in [startupinfo]. *)
Record SpawnCall := {
  argv : list str;
  env : gmap str str;
  use_show_window : bool
}.

(** [printed]: the calls of [print], oldest first (the console of the
    editor); [spawned]: the calls of [Popen]; [opened]: the calls of
    [window.open_file] with their flags. *)
Record World := {
  printed : list (list PyVal);
  spawned : list SpawnCall;
  opened : list (str * Z)
}.

Definition M (A : Type) : Type := World -> res A * World.

#[global] Instance M_ret : MRet M := fun A a w => (Ok a, w).
#[global] Instance M_bind : MBind M := fun A B f m w =>
  match m w with
  | (Ok a, w') => f a w'
  | (Raise e, w') => (Raise e, w')
  end.

Definition lift {A} (r : res A) : M A := fun w => (r, w).

Definition add_printed (args : list PyVal) (w : World) : World :=
  {| printed := printed w ++ [args];
     spawned := spawned w;
     opened := opened w |}.

Definition add_opened (encoded_path : str) (flags : Z) (w : World) : World :=
  {| printed := printed w;
     spawned := spawned w;
     opened := opened w ++ [(encoded_path, flags)] |}.

Definition add_spawned (c : SpawnCall) (w : World) : World :=
  {| printed := printed w;
     spawned := spawned w ++ [c];
     opened := opened w |}.

Definition print (args : list PyVal) : M unit := fun w =>
  (Ok tt, add_printed args w).

Definition open_file (encoded_path : str) (flags : Z) : M unit := fun w =>
  (Ok tt, add_opened encoded_path flags w).

(** [try: body / except e: handler] *)
Definition try_except {A} (body : M A) (e : exn) (handler : M A) : M A :=
  fun w =>
    match body w with
    | (Raise e', w') =>
        if bool_decide (e' = e) then handler w' else (Raise e', w')
    | r => r
    end.

(** A spawned child: [communicate(input)] followed by [wait()] gives the
    captured output, the captured error stream and the exit status. *)
Definition Process := bytes -> bytes * bytes * Z.

(** The platform under the plugin: the [os] and [subprocess] modules and
    the constants of the [sublime] module. *)
Record Host := {
  interp : Interp;
  os_name : str;
  pathsep : str;
  environ : gmap str str;
  expanduser : str -> str;
  path_join : str -> str -> str;
  dirname : str -> str;
  Popen : SpawnCall -> res Process;
  platform : str;
  INHIBIT_WORD_COMPLETIONS : Z;
  INHIBIT_EXPLICIT_COMPLETIONS : Z;
  ENCODED_POSITION : Z
}.

(** The view of the editor, as far as the plugin queries it:
    [file_name()], the [file_name()] of every view of its window, the whole
    buffer, [rowcol(point)], the regions of [sel()] and
    [match_selector(point, selector)]. *)
Record View := {
  file_name : option str;
  window_views : list (option str);
  buffer : str;
  rowcol : Z -> Z * Z;
  sel : list (Z * Z);
  match_selector : Z -> str -> bool
}.

(** [region.begin()] *)
Definition begin (r : Z * Z) : Z := Z.min (fst r) (snd r).

(** The module-level [settings] object, as [plugin_loaded] has built it
    by the time the editor sends a request. *)
Record Settings := {
  racer_bin : str;
  search_paths : list str
}.

Definition do_spawn (h : Host) (c : SpawnCall) : M Process := fun w =>
  (Popen h c, add_spawned c w).

(** ** [Result] *)

Record Result := {
  completion : str;
  snippet : str;
  row : Z;
  column : Z;
  path : str;
  type : str;
  context : str
}.

(** [Result(parts)]: the fields are read in this order, so a missing
    field is an [IndexError] and a row or column that is no integer a
    [ValueError], whichever comes first. *)
Definition Result_init (py : Interp) (parts : list str) : res Result :=
  completion ← index parts 0;
  snippet ← index parts 1;
  row ← index parts 2 ≫= int_of_str py;
  column ← index parts 3 ≫= int_of_str py;
  path ← index parts 4;
  type ← index parts 5;
  context ← index parts 6;
  Ok {| completion := completion; snippet := snippet; row := row;
        column := column; path := path; type := type; context := context |}.

Definition expand_all (h : Host) (paths : list str) : list str :=
  List.map (expanduser h) paths.

(** ** [determine_context_path] *)

(** A [dict] with counts: the mapping and its keys in insertion order. *)
Definition count_item (d : gmap str nat * list str) (item : str)
  : gmap str nat * list str :=
  match fst d !! item with
  | None => (<[item := 1%nat]> (fst d), snd d ++ [item])
  | Some n => (<[item := S n]> (fst d), snd d)
  end.

(** [max(keys, key=...)] after the first key: a later key replaces the
    best one only when its value is strictly larger. *)
Fixpoint max_from {A} (key : A -> nat) (best : A) (l : list A) : A :=
  match l with
  | [] => best
  | x :: l' => max_from key (if (key best <? key x)%nat then x else best) l'
  end.

Definition py_max {A} (key : A -> nat) (l : list A) : res A :=
  match l with
  | [] => Raise ValueError
  | x :: l' => Ok (max_from key x l')
  end.

Definition determine_context_path (h : Host) (view : View) : res str :=
  match file_name view with
  | Some p => Ok p
  | None =>
      let paths := omap id (window_views view) in
      let paths := List.filter (fun p => str_eqb (slice_last 3 p) (lit ".rs")) paths in
      let directories :=
        List.map (fun p => path_join h (dirname h p) (lit "_transient.rs")) paths in
      if (length directories =? 0)%nat then Ok (lit "-")
      else
        let dirs := foldl count_item (∅, []) directories in
        py_max (fun k => default 0%nat (fst dirs !! k))
               (dict_order (interp h) (snd dirs))
  end.

(** ** [run_racer] *)

Definition match_string : str := lit "MATCH ".

(** The body of the loop over the output lines, for one decoded line:
    the record of a [MATCH] line, nothing for any other line. *)
Definition parse_line (py : Interp) (with_snippet : bool) (line : str)
  : res (option Result) :=
  if startswith line match_string then
    let parts :=
      if with_snippet
      then split (chr ";") 7 (slice_from (length match_string) line)
      else list_insert_at 1 []
             (split (chr ",") 6 (slice_from (length match_string) line)) in
    result ← Result_init py parts;
    Ok (Some result)
  else Ok None.

(** The loop over [output.splitlines()], appending to [results]. *)
Fixpoint parse_lines (py : Interp) (with_snippet : bool)
    (lines : list bytes) (results : list Result) : res (list Result) :=
  match lines with
  | [] => Ok results
  | byte_line :: rest =>
      line ← utf8_decode byte_line;
      r ← parse_line py with_snippet line;
      parse_lines py with_snippet rest
        (match r with Some result => results ++ [result] | None => results end)
  end.

(** The environment of the child: [os.environ] with [RUST_SRC_PATH] set
    to the configured search paths followed by its former value. *)
Definition racer_env (h : Host) (settings : Settings) : gmap str str :=
  let expanded_search_paths := expand_all h (search_paths settings) in
  let expanded_search_paths :=
    match environ h !! lit "RUST_SRC_PATH" with
    | Some v => expanded_search_paths ++ [v]
    | None => expanded_search_paths
    end in
  <[lit "RUST_SRC_PATH" := join (pathsep h) expanded_search_paths]> (environ h).

(** The line printed when racer fails. *)
Definition failure_report (cmd_list : list str) (exit_code : Z)
    (output err : bytes) : list PyVal :=
  [PStr (lit "CMD: '" ++ join (lit " ") cmd_list ++ lit "' failed: exit_code:");
   PInt exit_code; PBytes output; PBytes err].

Definition run_racer (h : Host) (settings : Settings) (view : View)
    (cmd_list : list str) : M (list Result) :=
  let content := buffer view in
  cmd0 ← lift (index cmd_list 0);
  let with_snippet := str_eqb cmd0 (lit "complete-with-snippet") in
  let cmd_list := list_insert_at 0 (racer_bin settings) cmd_list in
  context_path ← lift (determine_context_path h view);
  let cmd_list := cmd_list ++ [context_path] in
  let cmd_list := cmd_list ++ [lit "-"] in
  process ← do_spawn h {| argv := cmd_list;
                          env := racer_env h settings;
                          use_show_window := str_eqb (os_name h) (lit "nt") |};
  input ← lift (utf8_encode content);
  let '(output, err, exit_code) := process input in
  if exit_code =? 0 then
    lift (parse_lines (interp h) with_snippet (splitlines output) [])
  else
    print (failure_report cmd_list exit_code output err);;
    mret [].

(** The call of [Popen] that [run_racer] makes for [cmd_list], once the
    context path is known. *)
Definition racer_call (h : Host) (settings : Settings) (cmd_list : list str)
    (context_path : str) : SpawnCall :=
  {| argv := racer_bin settings :: cmd_list ++ [context_path; lit "-"];
     env := racer_env h settings;
     use_show_window := str_eqb (os_name h) (lit "nt") |}.

(** A [MATCH] line of racer with the given fields, as
    [complete-with-snippet] and as [find-definition] print it. *)
Definition snippet_line (fields : list str) : str :=
  match_string ++ join [chr ";"] fields.

Definition definition_line (fields : list str) : str :=
  match_string ++ join [chr ","] fields.

(** The [complete-with-snippet] line that stands for a record: its seven
    fields, row and column in decimal. This is the reconstruction of the
    round trip; the plugin itself never prints a record. *)
Definition reconstruct (r : Result) : str :=
  snippet_line [completion r; snippet r; str_of_int (row r);
                str_of_int (column r); path r; type r; context r].

(** ** [RustAutocomplete.on_query_completions] *)

(** The ranking of the kinds; an unknown kind comes last. *)
Definition rank_table : gmap str nat :=
  list_to_map [(lit "Module", 0%nat); (lit "Function", 1%nat);
               (lit "Struct", 2%nat); (lit "Trait", 3%nat);
               (lit "Type", 4%nat); (lit "Enum", 5%nat)].

Definition cmp (raw_result : Result) : nat :=
  default 100%nat (rank_table !! type raw_result).

(** The ranking in the words of the specification: Module, Function,
    Struct, Trait, Type, Enum, then anything else. *)
Definition spec_rank (kind : str) : nat :=
  if decide (kind = lit "Module") then 0
  else if decide (kind = lit "Function") then 1
  else if decide (kind = lit "Struct") then 2
  else if decide (kind = lit "Trait") then 3
  else if decide (kind = lit "Type") then 4
  else if decide (kind = lit "Enum") then 5
  else 100.

(** [sorted(l, key=key)], the builtin: smallest key first, and stable, as
    the language guarantees. It is modelled by insertion from the right,
    each element going in front of the first one whose key is not
    smaller. *)
Fixpoint insert_sorted {A} (key : A -> nat) (x : A) (l : list A) : list A :=
  match l with
  | [] => [x]
  | y :: l' =>
      if (key x <=? key y)%nat then x :: y :: l'
      else y :: insert_sorted key x l'
  end.

Fixpoint sorted {A} (key : A -> nat) (l : list A) : list A :=
  match l with
  | [] => []
  | x :: l' => insert_sorted key x (sorted key l')
  end.

Definition len (s : str) : Z := Z.of_nat (length s).

Definition spaces (n : Z) : str := replicate (Z.to_nat n) 32%N.

(** [format(s, ">w")]: [s] flushed right in a field of [w] characters. *)
Definition rjust (s : str) (w : Z) : str := spaces (w - len s) ++ s.

Definition display_line (lalign : Z) (result : Result) : str :=
  let context :=
    if negb (str_eqb (type result) (lit "Module"))
    then lit " : " ++ context result else [] in
  completion result ++ lit "   "
    ++ rjust (type result) (lalign - len (completion result)) ++ context.

(** The part of [on_query_completions] after the call of racer: ranking,
    alignment and padding of the popup rows. The result is what the
    listener returns: [None], or the rows with the flags. *)
Definition format_completions (h : Host) (raw_results : list Result)
  : option (list (str * str) * Z) :=
  let raw_results := sorted cmp raw_results in
  let lalign :=
    foldl (fun a r => Z.max a (len (completion r) + len (type r)))
          0 raw_results in
  let results :=
    List.map (fun r => (display_line lalign r, snippet r)) raw_results in
  let longest := foldl (fun a p => Z.max a (len (fst p))) 0 results in
  match results with
  | first :: others =>
      let completion :=
        fst first ++ spaces (Z.max 0 (longest - len (fst first) - 2)) in
      Some ((completion, snd first) :: others,
            Z.lor (INHIBIT_WORD_COMPLETIONS h)
                  (INHIBIT_EXPLICIT_COMPLETIONS h))
  | [] => None
  end.

Definition on_query_completions (h : Host) (settings : Settings)
    (view : View) (prefix : str) (locations : list Z)
  : M (option (list (str * str) * Z)) :=
  location ← lift (index locations 0);
  if match_selector view location (lit "source.rust") then
    let '(row_, col) := rowcol view location in
    let row_ := row_ + 1 in
    raw ← try_except
            (raw_results ← run_racer h settings view
               [lit "complete-with-snippet"; str_of_int row_; str_of_int col];
             mret (Some raw_results))
            FileNotFoundError
            (print [PStr (lit "Unable to find racer executable (check settings)")];;
             mret None);
    match raw with
    | None => mret None
    | Some raw_results => mret (format_completions h raw_results)
    end
  else mret None.

(** ** [RustGotoDefinitionCommand.run] *)

(** [\w] *)
Definition is_word (py : Interp) (c : codepoint) : bool :=
  if (c <? 128)%N then
    is_digit c || ((65 <=? c)%N && (c <=? 90)%N)
    || ((97 <=? c)%N && (c <=? 122)%N) || (c =? 95)%N
  else uc_isalnum py c.

(** [re.compile('^\w\:').match(path)] finds a match. *)
Definition match_drive (py : Interp) (path : str) : bool :=
  match path with
  | c :: 58%N :: _ => is_word py c
  | _ => false
  end.

Definition encoded_position (path : str) (row column : Z) : str :=
  path ++ lit ":" ++ str_of_int row ++ lit ":" ++ str_of_int column.

Definition normalize_path (h : Host) (path : str) : str :=
  if str_eqb (platform h) (lit "windows") && negb (match_drive (interp h) path)
  then lit "c:" ++ path else path.

Definition RustGotoDefinitionCommand_run (h : Host) (settings : Settings)
    (view : View) : M unit :=
  region ← lift (index (sel view) 0);
  let '(row_, col) := rowcol view (begin region) in
  let row_ := row_ + 1 in
  results ← run_racer h settings view
              [lit "find-definition"; str_of_int row_; str_of_int col];
  if (length results =? 1)%nat then
    result ← lift (index results 0);
    let path := normalize_path h (path result) in
    let encoded_path := encoded_position path (row result) (column result) in
    open_file encoded_path (ENCODED_POSITION h)
  else mret tt.

(** ** A host and a view to run the plugin on *)

(** An interpreter whose tables know ASCII only, without PEP 515 and with
    [dict] keys in insertion order. *)
Definition example_interp : Interp :=
  {| uc_isspace := fun _ => false;
     uc_todecimal := fun _ => None;
     uc_isalnum := fun _ => false;
     pep515 := false;
     dict_order := fun keys => keys |}.

(** [posixpath.join] of two components *)
Definition posix_join (a b : str) : str :=
  if startswith b (lit "/") then b
  else if str_eqb a [] || str_eqb (slice_last 1 a) (lit "/") then a ++ b
  else a ++ lit "/" ++ b.

Fixpoint drop_while {A} (f : A -> bool) (l : list A) : list A :=
  match l with
  | [] => []
  | x :: l' => if f x then drop_while f l' else l
  end.

(** [posixpath.dirname] *)
Definition posix_dirname (p : str) : str :=
  let head := rev (drop_while (fun c => negb (N.eqb c 47)) (rev p)) in
  if forallb (N.eqb 47) head then head
  else rev (drop_while (N.eqb 47) (rev head)).

(** A POSIX host on which [Popen] behaves as [spawn]. *)
Definition example_host (spawn : SpawnCall -> res Process) : Host :=
  {| interp := example_interp;
     os_name := lit "posix";
     pathsep := lit ":";
     environ := {[ lit "RUST_SRC_PATH" := lit "/usr/src/rust" ]};
     expanduser := fun p => p;
     path_join := posix_join;
     dirname := posix_dirname;
     Popen := spawn;
     platform := lit "linux";
     INHIBIT_WORD_COMPLETIONS := 8;
     INHIBIT_EXPLICIT_COMPLETIONS := 16;
     ENCODED_POSITION := 1 |}.

(** A racer that prints [output] and exits with [exit_code]. *)
Definition example_racer (output : bytes) (exit_code : Z)
  : SpawnCall -> res Process :=
  fun _ => Ok (fun _ => (output, [], exit_code)).

(** A racer binary that is not there. *)
Definition missing_racer : SpawnCall -> res Process :=
  fun _ => Raise FileNotFoundError.

(** A saved one-line Rust buffer with the caret at its start. *)
Definition example_view : View :=
  {| file_name := Some (lit "/tmp/x.rs");
     window_views := [Some (lit "/tmp/x.rs")];
     buffer := lit "fn main() {}";
     rowcol := fun point => (0, point);
     sel := [(0, 0)];
     match_selector := fun _ selector => str_eqb selector (lit "source.rust") |}.

Definition example_settings : Settings :=
  {| racer_bin := lit "racer"; search_paths := [lit "/opt/rust/src"] |}.

Definition empty_world : World :=
  {| printed := []; spawned := []; opened := [] |}.

(** A plain-text buffer without a file, beside one Rust file. *)
Definition example_text_view : View :=
  {| file_name := None;
     window_views := [None; Some (lit "/a/b/f.rs"); Some (lit "/a/notes.txt")];
     buffer := lit "hello";
     rowcol := fun point => (0, point);
     sel := [(0, 0)];
     match_selector := fun _ _ => false |}.

(** ** The settings object and its life cycle *)

(** The settings of the package as the editor holds them
    ([sublime.load_settings]): the values of the keys [racer] and
    [search_paths] where the file sets them, and the tags under which a
    change listener is registered ([add_on_change], [clear_on_change]).
    The editor hands out one shared object, so the listeners outlive the
    [Settings] instance that registered them. The listener of the plugin
    is always [settings_changed]. *)
Record PackageSettings := {
  racer_value : option str;
  search_paths_value : option (list str);
  on_change : gset str
}.

Definition add_on_change (tag : str) (ps : PackageSettings) : PackageSettings :=
  {| racer_value := racer_value ps;
     search_paths_value := search_paths_value ps;
     on_change := {[tag]} ∪ on_change ps |}.

Definition clear_on_change (tag : str) (ps : PackageSettings) : PackageSettings :=
  {| racer_value := racer_value ps;
     search_paths_value := search_paths_value ps;
     on_change := on_change ps ∖ {[tag]} |}.

(** The module: the global [settings] and the package settings. *)
Record Plugin := {
  settings_global : option Settings;
  package_settings : PackageSettings
}.

(** [Settings.__init__]: the instance and the package settings with the
    two listeners added. *)
Definition Settings_init (ps : PackageSettings) : Settings * PackageSettings :=
  let ps := add_on_change (lit "racer") ps in
  let ps := add_on_change (lit "search_paths") ps in
  ({| racer_bin := default (lit "racer") (racer_value ps);
      search_paths := default [] (search_paths_value ps) |}, ps).

(** [Settings.unload] *)
Definition Settings_unload (ps : PackageSettings) : PackageSettings :=
  clear_on_change (lit "search_paths") (clear_on_change (lit "racer") ps).

Definition plugin_loaded (p : Plugin) : Plugin :=
  let '(settings, ps) := Settings_init (package_settings p) in
  {| settings_global := Some settings; package_settings := ps |}.

Definition plugin_unloaded (p : Plugin) : Plugin :=
  match settings_global p with
  | Some _ =>
      {| settings_global := None;
         package_settings := Settings_unload (package_settings p) |}
  | None => p
  end.

Definition settings_changed (p : Plugin) : Plugin :=
  let p :=
    match settings_global p with
    | Some _ =>
        {| settings_global := None;
           package_settings := Settings_unload (package_settings p) |}
    | None => p
    end in
  let '(settings, ps) := Settings_init (package_settings p) in
  {| settings_global := Some settings; package_settings := ps |}.

(** The three entry points, to run them in any order. *)
Inductive PluginCall :=
  | CallLoaded
  | CallUnloaded
  | CallChanged.

Definition plugin_call (p : Plugin) (c : PluginCall) : Plugin :=
  match c with
  | CallLoaded => plugin_loaded p
  | CallUnloaded => plugin_unloaded p
  | CallChanged => settings_changed p
  end.

(** The module as the editor imports it, before [plugin_loaded]. *)
Definition fresh_plugin (racer : option str) (paths : option (list str))
  : Plugin :=
  {| settings_global := None;
     package_settings :=
       {| racer_value := racer; search_paths_value := paths;
          on_change := ∅ |} |}.

(** ** Names for what the functions compute on the way *)

(** [directories] in [determine_context_path]: for every open Rust file,
    the transient file beside it. *)
Definition rust_directories (h : Host) (view : View) : list str :=
  List.map (fun p => path_join h (dirname h p) (lit "_transient.rs"))
    (List.filter (fun p => str_eqb (slice_last 3 p) (lit ".rs"))
       (omap id (window_views view))).

(** How often [k] occurs in [l]. *)
Definition occurrences (k : str) (l : list str) : nat :=
  length (filter (fun x => x = k) l).

(** The output line is a [MATCH] line. *)
Definition is_match_line (byte_line : bytes) : bool :=
  match utf8_decode byte_line with
  | Ok line => startswith line match_string
  | Raise _ => false
  end.

(** [lalign] in [on_query_completions]: the widest completion with its
    kind. *)
Definition label_column (raw_results : list Result) : Z :=
  foldl (fun a r => Z.max a (len (completion r) + len (type r))) 0 raw_results.

(** A line of output without its terminator: it holds neither a line
    feed nor a carriage return. *)
#[global] Instance byte_eq_decision : EqDecision Byte.byte.
Proof.
  intros x y. destruct (Byte.eqb x y) eqn:E.
  - left. by apply Byte.byte_dec_bl.
  - right. by apply Byte.eqb_false.
Defined.

Definition is_line (l : bytes) : Prop :=
  (Byte.x0a ∉ l) /\ (Byte.x0d ∉ l).

(** [l'] is [l] with at most one element added at its end. *)
Definition grows_by_at_most_one {A} (l l' : list A) : Prop :=
  exists extra, l' = l ++ extra /\ (length extra <= 1)%nat.

(** A code point that [str.encode("utf-8")] accepts: a Unicode scalar
    value. *)
Definition is_scalar (c : codepoint) : bool :=
  (c <? 1114112)%N && negb ((55296 <=? c)%N && (c <=? 57343)%N).

(** * Splitting and joining *)

Section split_facts.
Variable sep : codepoint.

Lemma break_at_sep (a r : str) :
  sep ∉ a -> break_at sep (a ++ sep :: r) = (a, Some r).
Proof.
  induction a as [|c a IH]; intros Ha; simpl.
  - by rewrite N.eqb_refl.
  - apply not_elem_of_cons in Ha as [Hc Ha].
    destruct (N.eqb_spec c sep) as [->|_]; [done|].
    by rewrite IH.
Qed.

Lemma break_at_none (a : str) :
  sep ∉ a -> break_at sep a = (a, None).
Proof.
  induction a as [|c a IH]; intros Ha; simpl; [done|].
  apply not_elem_of_cons in Ha as [Hc Ha].
  destruct (N.eqb_spec c sep) as [->|_]; [done|].
  by rewrite IH.
Qed.

Lemma split_closed_fields (fs : list str) (m : nat) (tail : str) :
  Forall (fun f => sep ∉ f) fs ->
  split sep (length fs + m) (closed_fields sep fs ++ tail)
  = fs ++ split sep m tail.
Proof.
  induction 1 as [|f fs Hf _ IH]; [done|].
  cbn [length Nat.add split closed_fields List.map concat].
  rewrite <- !app_assoc. cbn [app].
  rewrite (break_at_sep f _ Hf).
  fold (closed_fields sep fs). by rewrite IH.
Qed.

Lemma split_last_field (f : str) (m : nat) :
  sep ∉ f -> split sep m f = [f].
Proof.
  intros Hf. destruct m; [done|]. simpl. by rewrite break_at_none.
Qed.

Lemma join_closed_fields (fs : list str) (f : str) :
  join [sep] (fs ++ [f]) = closed_fields sep fs ++ f.
Proof.
  induction fs as [|g fs IH]; [done|].
  change (join [sep] ((g :: fs) ++ [f]))
    with (join [sep] (g :: (fs ++ [f]))).
  cbn [join]. destruct (fs ++ [f]) as [|x l] eqn:E.
  - by destruct fs.
  - rewrite IH. cbn [closed_fields List.map concat].
    by rewrite <- !app_assoc.
Qed.
End split_facts.

(** * [int(str(n))] *)

Lemma scan_digits_all (us : bool) (s : str) (a : Z) :
  Forall (fun c => is_digit c = true) s ->
  scan_digits us false a s = Some (digits_value a s, []).
Proof.
  intros Hs. revert a.
  induction Hs as [|c s Hc _ IH]; intros a; simpl; [done|].
  by rewrite Hc, IH.
Qed.

Lemma digit_char (n : N) : is_digit (48 + n mod 10)%N = true.
Proof.
  unfold is_digit. pose proof (N.mod_upper_bound n 10 ltac:(lia)).
  set (m := (n mod 10)%N) in *.
  apply andb_true_iff; split; apply N.leb_le; lia.
Qed.

Lemma digits_fuel_digits (fuel : nat) (n : N) (acc : str) :
  Forall (fun c => is_digit c = true) acc ->
  Forall (fun c => is_digit c = true) (digits_fuel fuel n acc).
Proof.
  revert n acc. induction fuel as [|f IH]; intros n acc Hacc; simpl; [done|].
  assert (Forall (fun c => is_digit c = true) ((48 + n mod 10)%N :: acc))
    by (constructor; [apply digit_char | done]).
  destruct (N.eqb (n / 10) 0); [done | by apply IH].
Qed.

Lemma digits_fuel_nonempty (fuel : nat) (n : N) (acc : str) :
  acc <> [] -> digits_fuel fuel n acc <> [].
Proof.
  revert n acc. induction fuel as [|f IH]; intros n acc Hacc; simpl; [done|].
  destruct (N.eqb (n / 10) 0); [done | by apply IH].
Qed.

Lemma digits_fuel_value (fuel : nat) (n : N) (acc : str) :
  (n < 2 ^ N.of_nat fuel)%N ->
  digits_value 0 (digits_fuel fuel n acc) = digits_value (Z.of_N n) acc.
Proof.
  revert n acc. induction fuel as [|f IH]; intros n acc Hn.
  - simpl in *. by replace n with 0%N by lia.
  - cbn [digits_fuel].
    assert (Hd : (10 * (n / 10) + n mod 10 = n)%N)
      by (symmetry; apply N.div_mod; lia).
    pose proof (N.mod_upper_bound n 10 ltac:(lia)) as Hm.
    set (m := (n mod 10)%N) in *. set (q := (n / 10)%N) in *.
    assert (Hstep : forall a : Z,
      digits_value a ((48 + m)%N :: acc)
      = digits_value (10 * a + Z.of_N m) acc).
    { intros a. unfold digits_value. cbn [foldl]. do 3 f_equal. lia. }
    destruct (N.eqb_spec q 0) as [Hz|Hz].
    + rewrite Hstep. f_equal. lia.
    + rewrite IH, Hstep; [f_equal; lia|].
      rewrite Nat2N.inj_succ, N.pow_succ_r' in Hn.
      subst q. apply N.Div0.div_lt_upper_bound. lia.
Qed.

Lemma digits_spec (n : N) :
  Forall (fun c => is_digit c = true) (digits n)
  /\ digits n <> []
  /\ digits_value 0 (digits n) = Z.of_N n.
Proof.
  unfold digits. split; [by apply digits_fuel_digits|]. split.
  - cbn [digits_fuel]. destruct (N.eqb (n / 10) 0); [done|].
    by apply digits_fuel_nonempty.
  - rewrite digits_fuel_value; [done|].
    rewrite Nat2N.inj_succ, N2Nat.id.
    destruct n as [|p]; [done|]. apply N.log2_spec. lia.
Qed.

Lemma digit_below_128 (c : codepoint) : is_digit c = true -> (c <? 128)%N = true.
Proof.
  unfold is_digit. intros [_ H]%andb_true_iff. apply N.leb_le in H.
  apply N.ltb_lt. lia.
Qed.

Lemma to_ascii_decimal_ascii (py : Interp) (s : str) :
  Forall (fun c => (c <? 128)%N = true) s -> to_ascii_decimal py s = Some s.
Proof.
  induction 1 as [|c s Hc _ IH]; simpl; [done|]. by rewrite Hc, IH.
Qed.

Lemma int_of_digits (py : Interp) (s : str) (neg : bool) :
  Forall (fun c => is_digit c = true) s -> s <> [] ->
  int_of_str py (if neg then 45%N :: s else s)
  = Ok ((if neg then -1 else 1) * digits_value 0 s).
Proof.
  intros Hs Hne. unfold int_of_str.
  assert (Hascii : Forall (fun c => (c <? 128)%N = true)
                     (if neg then 45%N :: s else s)).
  { destruct neg; [constructor; [done|]|];
      (eapply Forall_impl; [exact Hs | apply digit_below_128]). }
  rewrite (to_ascii_decimal_ascii _ _ Hascii).
  destruct s as [|c s]; [done|]. clear Hne.
  pose proof (Forall_inv Hs) as Hc.
  assert (Hsp : is_space c = false).
  { unfold is_digit in Hc. apply andb_true_iff in Hc as [H1 H2].
    apply N.leb_le in H1. unfold is_space.
    apply orb_false_iff; split; [apply andb_false_iff; right|];
      [apply N.leb_gt | apply N.eqb_neq]; lia. }
  assert (H43 : N.eqb c 43 = false /\ N.eqb c 45 = false).
  { unfold is_digit in Hc. apply andb_true_iff in Hc as [H1 H2].
    apply N.leb_le in H1. split; apply N.eqb_neq; lia. }
  destruct H43 as [H43 H45].
  destruct neg.
  - change (lstrip (45%N :: c :: s)) with (45%N :: c :: s).
    cbv beta zeta iota.
    change (N.eqb 45 43) with false. change (N.eqb 45 45) with true.
    cbv beta iota. rewrite Hc. by rewrite (scan_digits_all _ _ _ Hs).
  - cbn [lstrip]. rewrite Hsp. cbv beta zeta iota. rewrite H43, H45.
    cbv beta iota. rewrite Hc. by rewrite (scan_digits_all _ _ _ Hs).
Qed.

Lemma int_of_str_of_int (py : Interp) (z : Z) :
  int_of_str py (str_of_int z) = Ok z.
Proof.
  destruct z as [|p|p]; [done| |]; cbn [str_of_int];
    destruct (digits_spec (N.pos p)) as (Hd & Hne & Hv).
  - by rewrite (int_of_digits py _ false Hd Hne), Hv.
  - by rewrite (int_of_digits py _ true Hd Hne), Hv.
Qed.

Lemma str_of_int_free (sep : codepoint) (z : Z) :
  is_digit sep = false -> sep <> 45%N -> free_of sep (str_of_int z).
Proof.
  intros Hsep H45.
  assert (Hd : forall n, free_of sep (digits n)).
  { intros n Hin. destruct (digits_spec n) as (Hd & _).
    rewrite Forall_forall in Hd.
    specialize (Hd _ Hin). congruence. }
  destruct z as [|p|p]; cbn [str_of_int].
  - intros [->|[]%elem_of_nil]%elem_of_cons. by vm_compute in Hsep.
  - apply Hd.
  - intros [->|Hin]%elem_of_cons; [done | by apply (Hd (N.pos p))].
Qed.

(** * Parsing one line *)

Lemma parse_line_match (py : Interp) (with_snippet : bool) (rem : str) :
  parse_line py with_snippet (match_string ++ rem)
  = (result ← Result_init py
       (if with_snippet then split (chr ";") 7 rem
        else list_insert_at 1 [] (split (chr ",") 6 rem));
     Ok (Some result)).
Proof.
  unfold parse_line.
  change (startswith (match_string ++ rem) match_string) with true.
  change (slice_from (length match_string) (match_string ++ rem)) with rem.
  by destruct with_snippet.
Qed.

Lemma Result_init_seven (py : Interp) (f0 f1 f2 f3 f4 f5 f6 : str)
    (extra : list str) :
  Result_init py (f0 :: f1 :: f2 :: f3 :: f4 :: f5 :: f6 :: extra)
  = (row ← int_of_str py f2;
     column ← int_of_str py f3;
     Ok {| completion := f0; snippet := f1; row := row; column := column;
           path := f4; type := f5; context := f6 |}).
Proof. reflexivity. Qed.

(** A list of fewer than seven fields makes no record. *)
Lemma Result_init_short (py : Interp) (parts : list str) (r : Result) :
  (length parts < 7)%nat -> Result_init py parts <> Ok r.
Proof.
  intros Hlen. unfold Result_init.
  destruct parts as [|f0 [|f1 [|f2 [|f3 [|f4 [|f5 [|f6 extra]]]]]]];
    simpl in Hlen; try lia; simpl;
    repeat (destruct (int_of_str py _); simpl); done.
Qed.

Lemma split_seven_fields (sep : codepoint) (m : nat)
    (f0 f1 f2 f3 f4 f5 f6 : str) :
  Forall (free_of sep) [f0; f1; f2; f3; f4; f5; f6] ->
  (6 <= m)%nat ->
  split sep m (join [sep] [f0; f1; f2; f3; f4; f5; f6])
  = [f0; f1; f2; f3; f4; f5; f6].
Proof.
  intros Hf Hm. replace m with (6 + (m - 6))%nat by lia.
  generalize (m - 6)%nat. clear m Hm. intros m.
  change [f0; f1; f2; f3; f4; f5; f6]
    with ([f0; f1; f2; f3; f4; f5] ++ [f6]) in *.
  rewrite join_closed_fields.
  apply Forall_app in Hf as [Hf H6]. apply Forall_inv in H6.
  pose proof (split_closed_fields sep [f0; f1; f2; f3; f4; f5] m f6 Hf) as E.
  cbn [length] in E. rewrite E. by rewrite split_last_field.
Qed.

Lemma split_six_fields (sep : codepoint) (m : nat) (f0 f1 f2 f3 f4 f5 : str) :
  Forall (free_of sep) [f0; f1; f2; f3; f4; f5] ->
  (5 <= m)%nat ->
  split sep m (join [sep] [f0; f1; f2; f3; f4; f5])
  = [f0; f1; f2; f3; f4; f5].
Proof.
  intros Hf Hm. replace m with (5 + (m - 5))%nat by lia.
  generalize (m - 5)%nat. clear m Hm. intros m.
  change [f0; f1; f2; f3; f4; f5] with ([f0; f1; f2; f3; f4] ++ [f5]) in *.
  rewrite join_closed_fields.
  apply Forall_app in Hf as [Hf H5]. apply Forall_inv in H5.
  pose proof (split_closed_fields sep [f0; f1; f2; f3; f4] m f5 Hf) as E.
  cbn [length] in E. rewrite E. by rewrite split_last_field.
Qed.

Lemma split_seven_and_more (sep : codepoint)
    (f0 f1 f2 f3 f4 f5 f6 more : str) :
  Forall (free_of sep) [f0; f1; f2; f3; f4; f5; f6] ->
  split sep 7 (join [sep] [f0; f1; f2; f3; f4; f5; f6] ++ sep :: more)
  = [f0; f1; f2; f3; f4; f5; f6; more].
Proof.
  intros Hf.
  replace (join [sep] [f0; f1; f2; f3; f4; f5; f6] ++ sep :: more)
    with (closed_fields sep [f0; f1; f2; f3; f4; f5; f6] ++ more).
  - pose proof (split_closed_fields sep [f0; f1; f2; f3; f4; f5; f6] 0 more Hf)
      as E.
    cbn [length Nat.add] in E. by rewrite E.
  - cbn [closed_fields List.map concat join]. by rewrite <- !app_assoc.
Qed.

Lemma Result_init_Ok_inv (py : Interp) (parts : list str) (r : Result) :
  Result_init py parts = Ok r ->
  exists f2 f3 extra,
    parts = completion r :: snippet r :: f2 :: f3
            :: path r :: type r :: context r :: extra
    /\ int_of_str py f2 = Ok (row r)
    /\ int_of_str py f3 = Ok (column r).
Proof.
  intros H.
  destruct parts as [|f0 [|f1 [|f2 [|f3 [|f4 [|f5 [|f6 extra]]]]]]];
    try (exfalso; revert H; apply Result_init_short; simpl; lia).
  rewrite Result_init_seven in H.
  destruct (int_of_str py f2) as [x|] eqn:E2; [|done].
  destruct (int_of_str py f3) as [y|] eqn:E3; [|done].
  simpl in H. injection H as <-. simpl. by exists f2, f3, extra.
Qed.

Lemma split_nonempty (sep : codepoint) (m : nat) (s : str) :
  exists a l, split sep m s = a :: l.
Proof.
  destruct m; simpl; [by eexists _, _|].
  destruct (break_at sep s) as [a [r|]]; by eexists _, _.
Qed.

Lemma semicolon_free_decimal (z : Z) : free_of (chr ";") (str_of_int z).
Proof. by apply str_of_int_free. Qed.

(** * The claims about [MATCH] lines *)

(** C2. A well-formed [MATCH] line of [complete-with-snippet] has seven
    fields without [;], the third and fourth being integers. Parsing it
    gives the record whose completion, snippet, row, column, path, kind
    and context are these seven fields in order, row and column as
    integers. Reconstructing the line from the record and parsing again
    gives the same record, and the reconstruction is the line itself when
    row and column were written in decimal. *)
Theorem parse_snippet_line_roundtrip (py : Interp)
    (f0 f1 f2 f3 f4 f5 f6 : str) (r c : Z) :
  Forall (free_of (chr ";")) [f0; f1; f2; f3; f4; f5; f6] ->
  int_of_str py f2 = Ok r ->
  int_of_str py f3 = Ok c ->
  let record := {| completion := f0; snippet := f1; row := r; column := c;
                   path := f4; type := f5; context := f6 |} in
  parse_line py true (snippet_line [f0; f1; f2; f3; f4; f5; f6])
    = Ok (Some record)
  /\ parse_line py true (reconstruct record) = Ok (Some record)
  /\ (f2 = str_of_int r -> f3 = str_of_int c ->
      reconstruct record = snippet_line [f0; f1; f2; f3; f4; f5; f6]).
Proof.
  intros Hf Hr Hc record.
  assert (Hparse : forall g2 g3,
    free_of (chr ";") g2 -> free_of (chr ";") g3 ->
    int_of_str py g2 = Ok r -> int_of_str py g3 = Ok c ->
    parse_line py true (snippet_line [f0; f1; g2; g3; f4; f5; f6])
    = Ok (Some record)).
  { intros g2 g3 F2 F3 I2 I3. unfold snippet_line.
    rewrite parse_line_match.
    rewrite (split_seven_fields (chr ";") 7 f0 f1 g2 g3 f4 f5 f6); [| |lia].
    - by rewrite Result_init_seven, I2, I3.
    - repeat match goal with
             | H : Forall _ (_ :: _) |- _ => apply Forall_cons in H as [? H]
             end.
      repeat constructor; done. }
  split; [|split].
  - apply Hparse; [| |done|done];
      repeat match goal with
             | H : Forall _ (_ :: _) |- _ => apply Forall_cons in H as [? H]
             end; done.
  - unfold reconstruct. cbn [completion snippet row column path type context record].
    apply Hparse; auto using semicolon_free_decimal, int_of_str_of_int.
  - intros -> ->. reflexivity.
Qed.

Lemma parse_snippet_line_roundtrip_witness :
  parse_line example_interp true
    (lit "MATCH foo;foo_snip;3;10;/tmp/x.rs;Function;fn foo()")
  = Ok (Some {| completion := lit "foo"; snippet := lit "foo_snip";
                row := 3; column := 10; path := lit "/tmp/x.rs";
                type := lit "Function"; context := lit "fn foo()" |}).
Proof.
  refine (proj1 (parse_snippet_line_roundtrip example_interp
    (lit "foo") (lit "foo_snip") (lit "3") (lit "10") (lit "/tmp/x.rs")
    (lit "Function") (lit "fn foo()") 3 10 _ _ _)).
  - repeat constructor; compute_done.
  - reflexivity.
  - reflexivity.
Defined.

(** C10. A [complete-with-snippet] line with more than seven fields is
    parsed like the line cut after its seventh field: the record is made
    of the first seven fields, the context ends at the seventh [;] and
    the text behind that [;] is dropped, whatever it is. The record exists
    as soon as row and column are integers. *)
Theorem snippet_line_extra_fields_dropped (py : Interp)
    (f0 f1 f2 f3 f4 f5 f6 more : str) :
  Forall (free_of (chr ";")) [f0; f1; f2; f3; f4; f5; f6] ->
  parse_line py true
    (snippet_line [f0; f1; f2; f3; f4; f5; f6] ++ chr ";" :: more)
  = parse_line py true (snippet_line [f0; f1; f2; f3; f4; f5; f6])
  /\ forall r c : Z,
       int_of_str py f2 = Ok r ->
       int_of_str py f3 = Ok c ->
       parse_line py true
         (snippet_line [f0; f1; f2; f3; f4; f5; f6] ++ chr ";" :: more)
       = Ok (Some {| completion := f0; snippet := f1; row := r;
                     column := c; path := f4; type := f5; context := f6 |}).
Proof.
  intros Hf.
  assert (E : parse_line py true
                (snippet_line [f0; f1; f2; f3; f4; f5; f6] ++ chr ";" :: more)
              = (result ← Result_init py [f0; f1; f2; f3; f4; f5; f6];
                 Ok (Some result))).
  { unfold snippet_line. rewrite <- app_assoc, parse_line_match.
    by rewrite split_seven_and_more. }
  split.
  - rewrite E. unfold snippet_line. rewrite parse_line_match.
    by rewrite split_seven_fields by (done || lia).
  - intros r c Hr Hc. by rewrite E, Result_init_seven, Hr, Hc.
Qed.

Lemma snippet_line_extra_fields_dropped_witness :
  parse_line example_interp true
    (lit "MATCH foo;foo_snip;3;10;/tmp/x.rs;Function;fn foo();x;y")
  = Ok (Some {| completion := lit "foo"; snippet := lit "foo_snip";
                row := 3; column := 10; path := lit "/tmp/x.rs";
                type := lit "Function"; context := lit "fn foo()" |}).
Proof.
  refine (proj2 (snippet_line_extra_fields_dropped example_interp
    (lit "foo") (lit "foo_snip") (lit "3") (lit "10") (lit "/tmp/x.rs")
    (lit "Function") (lit "fn foo()") (lit "x;y") _) 3 10 _ _).
  - repeat constructor; compute_done.
  - reflexivity.
  - reflexivity.
Defined.

Lemma break_at_free (sep : codepoint) (s : str) :
  free_of sep (fst (break_at sep s)).
Proof.
  unfold free_of. induction s as [|c s IH]; simpl; [apply not_elem_of_nil|].
  destruct (N.eqb_spec c sep) as [->|Hne]; [apply not_elem_of_nil|].
  destruct (break_at sep s) as [a r]. simpl in *.
  apply not_elem_of_cons. split; [congruence | done].
Qed.

(** Every part of a split but the last possible one is free of the
    separator. *)
Lemma split_free_before (sep : codepoint) (m : nat) (s : str) (i : nat)
    (p : str) :
  (i < m)%nat -> split sep m s !! i = Some p -> free_of sep p.
Proof.
  revert s i. induction m as [|m IH]; intros s i Hi; [lia|].
  cbn [split]. pose proof (break_at_free sep s) as Hfree.
  destruct (break_at sep s) as [a [r|]]; cbn [fst] in Hfree.
  - destruct i as [|i]; cbn [lookup list_lookup].
    + by intros [= <-].
    + apply IH. lia.
  - destruct i as [|i]; cbn [lookup list_lookup]; [by intros [= <-]|].
    by destruct i.
Qed.

Lemma split_length (sep : codepoint) (m : nat) (s : str) :
  (length (split sep m s) <= S m)%nat.
Proof.
  revert s. induction m as [|m IH]; intros s; cbn [split]; [simpl; lia|].
  destruct (break_at sep s) as [a [r|]]; cbn [length]; [|lia].
  specialize (IH r). lia.
Qed.

(** Splitting undoes joining when no part holds the separator and the
    limit is not reached. *)
Lemma split_join_free (sep : codepoint) (ps : list str) (m : nat) :
  ps <> [] ->
  Forall (free_of sep) ps ->
  (length ps <= S m)%nat ->
  split sep m (join [sep] ps) = ps.
Proof.
  revert m. induction ps as [|p ps IH]; intros m Hne Hfree Hlen; [done|].
  apply Forall_cons in Hfree as [Hp Hps].
  destruct ps as [|q qs].
  - cbn [join]. by apply split_last_field.
  - destruct m as [|m]; [simpl in Hlen; lia|].
    change (join [sep] (p :: q :: qs))
      with (p ++ [sep] ++ join [sep] (q :: qs)).
    cbn [app split]. rewrite (break_at_sep sep p _ Hp).
    f_equal. apply IH; [done | done | simpl in *; lia].
Qed.

(** C3, as the code has it. Under [find-definition] the remainder of every
    [MATCH] line is cut at its first six commas and an empty string is
    inserted as second part; [Result] is made of these parts. Whenever a
    record results, its snippet is empty and its completion, row, column,
    path, kind and context are the first six parts, none of which holds a
    comma: a context with a comma is cut there and the rest is dropped.
    When no part holds a [;], the record is that of the [;] line with
    these parts; a line of six comma-free fields has exactly these fields
    as its parts. *)
Theorem definition_line_shape (py : Interp) (rem : str) :
  let parts := split (chr ",") 6 rem in
  parse_line py false (match_string ++ rem)
    = (result ← Result_init py (list_insert_at 1 [] parts);
       Ok (Some result))
  /\ (forall result,
        parse_line py false (match_string ++ rem) = Ok (Some result) ->
        snippet result = []
        /\ (exists row_text column_text extra,
              parts = completion result :: row_text :: column_text
                      :: path result :: type result :: context result
                      :: extra
              /\ int_of_str py row_text = Ok (row result)
              /\ int_of_str py column_text = Ok (column result))
        /\ Forall (free_of (chr ","))
             [completion result; path result; type result; context result])
  /\ (Forall (free_of (chr ";")) parts ->
      parse_line py false (match_string ++ rem)
      = parse_line py true (snippet_line (list_insert_at 1 [] parts)))
  /\ (forall g0 g1 g2 g3 g4 g5,
        rem = join [chr ","] [g0; g1; g2; g3; g4; g5] ->
        Forall (free_of (chr ",")) [g0; g1; g2; g3; g4; g5] ->
        parts = [g0; g1; g2; g3; g4; g5])
  /\ (forall (line : str) (result : Result),
        parse_line py false line = Ok (Some result) -> snippet result = []).
Proof.
  intros parts.
  assert (E : parse_line py false (match_string ++ rem)
              = (result ← Result_init py (list_insert_at 1 [] parts);
                 Ok (Some result)))
    by apply parse_line_match.
  destruct (split_nonempty (chr ",") 6 rem) as (p0 & rest & Hparts).
  fold parts in Hparts.
  assert (Hins : list_insert_at 1 [] parts = p0 :: [] :: rest)
    by (by rewrite Hparts).
  split; [done|]. split; [|split; [|split]].
  - intros result Hres. rewrite E, Hins in Hres.
    destruct (Result_init py (p0 :: [] :: rest)) as [x|] eqn:Hx; [|done].
    injection Hres as <-.
    apply Result_init_Ok_inv in Hx as (f2 & f3 & extra & Heq & H2 & H3).
    injection Heq as -> Hs ->.
    assert (Hp : parts = completion x :: f2 :: f3 :: path x :: type x
                         :: context x :: extra) by (by rewrite Hparts).
    split; [done|]. split; [by exists f2, f3, extra|].
    assert (Hfree : forall i p, (i < 6)%nat -> parts !! i = Some p ->
                      free_of (chr ",") p)
      by (intros i p; apply split_free_before).
    repeat constructor.
    + by apply (Hfree 0%nat); [lia | rewrite Hp].
    + by apply (Hfree 3%nat); [lia | rewrite Hp].
    + by apply (Hfree 4%nat); [lia | rewrite Hp].
    + by apply (Hfree 5%nat); [lia | rewrite Hp].
  - intros Hsemi. rewrite E. unfold snippet_line. rewrite parse_line_match.
    rewrite split_join_free; [done | by rewrite Hins | |].
    + rewrite Hins. rewrite Hparts in Hsemi.
      apply Forall_cons in Hsemi as [H0 Hrest].
      constructor; [done|]. constructor; [apply not_elem_of_nil | done].
    + rewrite Hins. pose proof (split_length (chr ",") 6 rem) as Hlen.
      fold parts in Hlen. rewrite Hparts in Hlen. simpl in *. lia.
  - intros g0 g1 g2 g3 g4 g5 -> Hf. subst parts.
    by rewrite split_six_fields by (done || lia).
  - intros line result. unfold parse_line.
    destruct (startswith line match_string); [|done].
    destruct (split_nonempty (chr ",") 6
                (slice_from (length match_string) line)) as (a & l & ->).
    change (list_insert_at 1 [] (a :: l)) with (a :: [] :: l).
    destruct (Result_init py (a :: [] :: l)) as [x|] eqn:Hx; [|done].
    simpl. intros [= <-].
    apply Result_init_Ok_inv in Hx as (? & ? & ? & Hp & _).
    by injection Hp.
Qed.

Lemma definition_line_shape_witness :
  parse_line example_interp false
    (lit "MATCH f,5,2,/p/lib.rs,Function,fn f(a: u8, b: u8)")
  = Ok (Some {| completion := lit "f"; snippet := []; row := 5;
                column := 2; path := lit "/p/lib.rs";
                type := lit "Function"; context := lit "fn f(a: u8" |}).
Proof.
  refine (eq_trans
    (proj1 (definition_line_shape example_interp
              (lit "f,5,2,/p/lib.rs,Function,fn f(a: u8, b: u8)"))) _).
  reflexivity.
Defined.

(** C3, as the claim has it, fails on a context with a comma: the
    [find-definition] line keeps [fn f(a: u8] only, while the [;] line
    with the same six fields and an empty snippet keeps the whole
    context. *)
Lemma definition_context_differs_from_snippet_form :
  parse_line example_interp false
    (definition_line [lit "f"; lit "5"; lit "2"; lit "/p/lib.rs";
                      lit "Function"; lit "fn f(a: u8, b: u8)"])
  = Ok (Some {| completion := lit "f"; snippet := []; row := 5;
                column := 2; path := lit "/p/lib.rs";
                type := lit "Function"; context := lit "fn f(a: u8" |})
  /\ parse_line example_interp true
       (snippet_line [lit "f"; []; lit "5"; lit "2"; lit "/p/lib.rs";
                      lit "Function"; lit "fn f(a: u8, b: u8)"])
     = Ok (Some {| completion := lit "f"; snippet := []; row := 5;
                   column := 2; path := lit "/p/lib.rs";
                   type := lit "Function";
                   context := lit "fn f(a: u8, b: u8)" |})
  /\ parse_line example_interp false
       (definition_line [lit "f"; lit "5"; lit "2"; lit "/p/lib.rs";
                         lit "Function"; lit "fn f(a: u8, b: u8)"])
     <> parse_line example_interp true
          (snippet_line [lit "f"; []; lit "5"; lit "2"; lit "/p/lib.rs";
                         lit "Function"; lit "fn f(a: u8, b: u8)"]).
Proof.
  split; [reflexivity|]. split; [reflexivity|]. by vm_compute.
Qed.

(** * [run_racer] step by step *)

Lemma run_racer_unfold (h : Host) (settings : Settings) (view : View)
    (cmd0 : str) (args : list str) (context_path : str) (w : World) :
  determine_context_path h view = Ok context_path ->
  run_racer h settings view (cmd0 :: args) w
  = let call := racer_call h settings (cmd0 :: args) context_path in
    let w1 := add_spawned call w in
    match Popen h call with
    | Raise e => (Raise e, w1)
    | Ok process =>
        match utf8_encode (buffer view) with
        | Raise e => (Raise e, w1)
        | Ok input =>
            let '(output, err, exit_code) := process input in
            if exit_code =? 0 then
              (parse_lines (interp h)
                 (str_eqb cmd0 (lit "complete-with-snippet"))
                 (splitlines output) [], w1)
            else
              (Ok [], add_printed
                        (failure_report (argv call) exit_code output err) w1)
        end
    end.
Proof.
  intros Hctx. unfold run_racer, mbind, M_bind, lift, do_spawn.
  cbn [index lookup list_lookup]. rewrite Hctx. cbv zeta.
  change (list_insert_at 0 (racer_bin settings) (cmd0 :: args))
    with (racer_bin settings :: cmd0 :: args).
  replace (((racer_bin settings :: cmd0 :: args) ++ [context_path]) ++ [lit "-"])
    with (argv (racer_call h settings (cmd0 :: args) context_path))
    by (cbn [argv racer_call]; by rewrite <- app_assoc).
  fold (racer_call h settings (cmd0 :: args) context_path).
  destruct (Popen h _) as [process|e]; [|done].
  destruct (utf8_encode (buffer view)) as [input|e]; [|done].
  destruct (process input) as [[output err] exit_code].
  by destruct (exit_code =? 0).
Qed.

(** * The claims about [run_racer] *)

(** C6. The argument vector of the subprocess is the racer binary, the
    command, the row, the column, the context path and ["-"], in this
    order; [run_racer] spawns exactly this one process. *)
Theorem racer_argument_vector (h : Host) (settings : Settings) (view : View)
    (command_kind row_arg column_arg context_path : str) (w : World) :
  determine_context_path h view = Ok context_path ->
  exists call : SpawnCall,
    spawned (snd (run_racer h settings view
                    [command_kind; row_arg; column_arg] w))
      = spawned w ++ [call]
    /\ argv call = [racer_bin settings; command_kind; row_arg; column_arg;
                    context_path; lit "-"].
Proof.
  intros Hctx.
  exists (racer_call h settings [command_kind; row_arg; column_arg] context_path).
  split; [|done].
  rewrite (run_racer_unfold _ _ _ _ _ _ _ Hctx). cbv zeta.
  destruct (Popen h _) as [process|e]; [|done].
  destruct (utf8_encode (buffer view)) as [input|e]; [|done].
  destruct (process input) as [[output err] exit_code].
  by destruct (exit_code =? 0).
Qed.

Lemma racer_argument_vector_witness :
  exists call : SpawnCall,
    spawned (snd (run_racer (example_host (example_racer [] 0))
                    example_settings example_view
                    [lit "find-definition"; lit "1"; lit "0"] empty_world))
      = spawned empty_world ++ [call]
    /\ argv call = [lit "racer"; lit "find-definition"; lit "1"; lit "0";
                    lit "/tmp/x.rs"; lit "-"].
Proof.
  refine (racer_argument_vector (example_host (example_racer [] 0))
    example_settings example_view (lit "find-definition") (lit "1") (lit "0")
    (lit "/tmp/x.rs") empty_world _).
  reflexivity.
Defined.

(** C9. Some output line begins with [MATCH ] and has too few fields: for
    [MATCH foo;bar] the construction of the record raises [IndexError],
    and [run_racer] raises it although racer exited with status zero. *)
Theorem short_match_line_raises :
  exists output : bytes,
    (exists line : str,
        utf8_decode output = Ok line
        /\ startswith line match_string = true
        /\ (length (split (chr ";") 7 (slice_from (length match_string) line))
            < 7)%nat
        /\ forall py, parse_line py true line = Raise IndexError)
    /\ fst (run_racer (example_host (example_racer output 0))
              example_settings example_view
              [lit "complete-with-snippet"; lit "1"; lit "0"] empty_world)
       = Raise IndexError
    /\ forall (h : Host) (settings : Settings) (view : View)
         (args : list str) (context_path : str) (process : Process)
         (input err : bytes) (w : World),
         determine_context_path h view = Ok context_path ->
         Popen h (racer_call h settings
                    (lit "complete-with-snippet" :: args) context_path)
           = Ok process ->
         utf8_encode (buffer view) = Ok input ->
         process input = (output, err, 0) ->
         fst (run_racer h settings view
                (lit "complete-with-snippet" :: args) w)
         = Raise IndexError.
Proof.
  exists (blit "MATCH foo;bar"). split; [|split].
  - exists (lit "MATCH foo;bar").
    split; [reflexivity|]. split; [reflexivity|].
    split; [vm_compute; lia | reflexivity].
  - reflexivity.
  - intros h settings view args context_path process input err w
      Hctx Hspawn Hin Hout.
    rewrite (run_racer_unfold _ _ _ _ _ _ _ Hctx). cbv zeta.
    by rewrite Hspawn, Hin, Hout.
Qed.

(** * Ranking the completions *)

Section sorted_facts.
Context {A : Type} (key : A -> nat).

Lemma insert_sorted_perm (x : A) (l : list A) :
  insert_sorted key x l ≡ₚ x :: l.
Proof.
  induction l as [|y l IH]; simpl; [done|].
  destruct (key x <=? key y)%nat; [done|].
  rewrite IH. apply Permutation_swap.
Qed.

Lemma sorted_perm (l : list A) : sorted key l ≡ₚ l.
Proof.
  induction l as [|x l IH]; simpl; [done|].
  by rewrite insert_sorted_perm, IH.
Qed.

Lemma insert_sorted_sorted (x : A) (l : list A) :
  StronglySorted (fun a b => (key a <= key b)%nat) l ->
  StronglySorted (fun a b => (key a <= key b)%nat) (insert_sorted key x l).
Proof.
  induction 1 as [|y l Hl IH Hy]; simpl.
  - repeat constructor.
  - destruct (Nat.leb_spec (key x) (key y)) as [Hxy|Hxy].
    + constructor; [by constructor|].
      constructor; [done|].
      eapply Forall_impl; [exact Hy|]. simpl. intros; lia.
    + constructor; [done|].
      rewrite (insert_sorted_perm x l).
      constructor; [lia | done].
Qed.

Lemma sorted_sorted (l : list A) :
  StronglySorted (fun a b => (key a <= key b)%nat) (sorted key l).
Proof.
  induction l as [|x l IH]; simpl; [constructor|].
  by apply insert_sorted_sorted.
Qed.

(** Elements that share their key keep their order. *)
Lemma insert_sorted_filter (P : A -> Prop) `{!forall a, Decision (P a)}
    (x : A) (l : list A) :
  (forall a b, P a -> P b -> key a = key b) ->
  filter P (insert_sorted key x l) = filter P (x :: l).
Proof.
  intros HP. induction l as [|y l IH]; simpl; [done|].
  destruct (Nat.leb_spec (key x) (key y)) as [Hxy|Hxy]; [done|].
  rewrite (filter_cons P y), IH.
  rewrite (filter_cons P x (y :: l)), (filter_cons P x l), (filter_cons P y l).
  destruct (decide (P x)) as [Hx|Hx], (decide (P y)) as [Hy|Hy]; try done.
  specialize (HP _ _ Hx Hy). lia.
Qed.

Lemma sorted_filter (P : A -> Prop) `{!forall a, Decision (P a)}
    (l : list A) :
  (forall a b, P a -> P b -> key a = key b) ->
  filter P (sorted key l) = filter P l.
Proof.
  intros HP. induction l as [|x l IH]; simpl; [done|].
  rewrite (insert_sorted_filter P x _ HP), !filter_cons, IH. done.
Qed.
End sorted_facts.

Lemma cmp_spec_rank (r : Result) : cmp r = spec_rank (type r).
Proof.
  unfold cmp, spec_rank, rank_table. cbn [list_to_map foldr uncurry].
  repeat (case_decide;
          [match goal with H : type r = _ |- _ => by rewrite H end|]).
  by rewrite !lookup_insert_ne, lookup_empty by done.
Qed.

(** * The two requests step by step *)

Lemma run_racer_spawned (h : Host) (settings : Settings) (view : View)
    (cmd0 : str) (args : list str) (context_path : str) (w : World) :
  determine_context_path h view = Ok context_path ->
  spawned (snd (run_racer h settings view (cmd0 :: args) w))
  = spawned w ++ [racer_call h settings (cmd0 :: args) context_path].
Proof.
  intros Hctx. rewrite (run_racer_unfold _ _ _ _ _ _ _ Hctx). cbv zeta.
  destruct (Popen h _) as [process|e]; [|done].
  destruct (utf8_encode (buffer view)) as [input|e]; [|done].
  destruct (process input) as [[output err] exit_code].
  by destruct (exit_code =? 0).
Qed.

Lemma on_query_completions_unfold (h : Host) (settings : Settings)
    (view : View) (prefix : str) (location : Z) (others : list Z)
    (r c : Z) (w : World) :
  match_selector view location (lit "source.rust") = true ->
  rowcol view location = (r, c) ->
  on_query_completions h settings view prefix (location :: others) w
  = match run_racer h settings view
            [lit "complete-with-snippet"; str_of_int (r + 1); str_of_int c] w
    with
    | (Ok raw_results, w1) => (Ok (format_completions h raw_results), w1)
    | (Raise FileNotFoundError, w1) =>
        (Ok None,
         add_printed
           [PStr (lit "Unable to find racer executable (check settings)")] w1)
    | (Raise e, w1) => (Raise e, w1)
    end.
Proof.
  intros Hsel Hrc.
  unfold on_query_completions, mbind, M_bind, lift, try_except, mret, M_ret,
    print.
  cbn [index lookup list_lookup]. rewrite Hsel, Hrc.
  destruct (run_racer _ _ _ _ w) as [[raw|e] w1]; [done|].
  by destruct e.
Qed.

Lemma goto_definition_unfold (h : Host) (settings : Settings) (view : View)
    (region : Z * Z) (others : list (Z * Z)) (r c : Z) (w : World) :
  sel view = region :: others ->
  rowcol view (begin region) = (r, c) ->
  RustGotoDefinitionCommand_run h settings view w
  = match run_racer h settings view
            [lit "find-definition"; str_of_int (r + 1); str_of_int c] w
    with
    | (Ok [result], w1) =>
        (Ok tt,
         add_opened
           (encoded_position (normalize_path h (path result))
              (row result) (column result))
           (ENCODED_POSITION h) w1)
    | (Ok _, w1) => (Ok tt, w1)
    | (Raise e, w1) => (Raise e, w1)
    end.
Proof.
  intros Hsel Hrc.
  unfold RustGotoDefinitionCommand_run, mbind, M_bind, lift, mret, M_ret,
    open_file.
  rewrite Hsel. cbn [index lookup list_lookup]. rewrite Hrc.
  destruct (run_racer _ _ _ _ w) as [[results|e] w1]; [|done].
  by destruct results as [|result [|? ?]].
Qed.

(** * The claims about the requests *)

(** C1. When racer exits with a non-zero status, [run_racer] returns the
    empty list without raising, and prints one line that carries the
    command line, the exit code, the captured output and the captured
    error stream. The completion request then returns nothing and the
    definition request opens nothing; neither raises. *)
Theorem racer_failure_reported (h : Host) (settings : Settings) (view : View)
    (cmd0 : str) (args : list str) (context_path : str)
    (process : Process) (input output err : bytes) (exit_code : Z)
    (w : World) :
  determine_context_path h view = Ok context_path ->
  Popen h (racer_call h settings (cmd0 :: args) context_path) = Ok process ->
  utf8_encode (buffer view) = Ok input ->
  process input = (output, err, exit_code) ->
  exit_code <> 0 ->
  let call := racer_call h settings (cmd0 :: args) context_path in
  let w' :=
    add_printed
      [PStr (lit "CMD: '" ++ join (lit " ") (argv call)
             ++ lit "' failed: exit_code:");
       PInt exit_code; PBytes output; PBytes err]
      (add_spawned call w) in
  run_racer h settings view (cmd0 :: args) w = (Ok [], w')
  /\ (forall (prefix : str) (location : Z) (others : list Z) (r c : Z),
        match_selector view location (lit "source.rust") = true ->
        rowcol view location = (r, c) ->
        cmd0 :: args
          = [lit "complete-with-snippet"; str_of_int (r + 1); str_of_int c] ->
        on_query_completions h settings view prefix (location :: others) w
        = (Ok None, w'))
  /\ (forall (region : Z * Z) (others : list (Z * Z)) (r c : Z),
        sel view = region :: others ->
        rowcol view (begin region) = (r, c) ->
        cmd0 :: args
          = [lit "find-definition"; str_of_int (r + 1); str_of_int c] ->
        RustGotoDefinitionCommand_run h settings view w = (Ok tt, w')).
Proof.
  intros Hctx Hspawn Hin Hout Hcode call w'.
  assert (Hrun : run_racer h settings view (cmd0 :: args) w = (Ok [], w')).
  { rewrite (run_racer_unfold _ _ _ _ _ _ _ Hctx). cbv zeta.
    rewrite Hspawn, Hin, Hout.
    by destruct (Z.eqb_spec exit_code 0). }
  split; [done|]. split.
  - intros prefix location others r c Hsel Hrc Hcmd.
    rewrite (on_query_completions_unfold _ _ _ _ _ _ _ _ _ Hsel Hrc).
    by rewrite <- Hcmd, Hrun.
  - intros region others r c Hsel Hrc Hcmd.
    rewrite (goto_definition_unfold _ _ _ _ _ _ _ _ Hsel Hrc).
    by rewrite <- Hcmd, Hrun.
Qed.

Lemma racer_failure_reported_witness :
  run_racer (example_host (example_racer (blit "MATCH a;b") 1))
    example_settings example_view
    [lit "complete-with-snippet"; lit "1"; lit "0"] empty_world
  = (Ok [],
     add_printed
       [PStr (lit "CMD: 'racer complete-with-snippet 1 0 /tmp/x.rs -' failed: exit_code:");
        PInt 1; PBytes (blit "MATCH a;b"); PBytes []]
       (add_spawned
          (racer_call (example_host (example_racer (blit "MATCH a;b") 1))
             example_settings
             [lit "complete-with-snippet"; lit "1"; lit "0"]
             (lit "/tmp/x.rs"))
          empty_world)).
Proof.
  refine (proj1 (racer_failure_reported
    (example_host (example_racer (blit "MATCH a;b") 1))
    example_settings example_view (lit "complete-with-snippet")
    [lit "1"; lit "0"] (lit "/tmp/x.rs")
    (fun _ => (blit "MATCH a;b", [], 1)) (blit "fn main() {}")
    (blit "MATCH a;b") [] 1 empty_world _ _ _ _ _)).
  - reflexivity.
  - reflexivity.
  - reflexivity.
  - reflexivity.
  - lia.
Defined.




(** The completion request turns a missing racer binary into a printed
    message and no completions. *)
Lemma completion_engine_not_found (h : Host) (settings : Settings)
    (view : View) (prefix : str) (location : Z) (others : list Z) (r c : Z)
    (context_path : str) (w : World) :
  match_selector view location (lit "source.rust") = true ->
  rowcol view location = (r, c) ->
  determine_context_path h view = Ok context_path ->
  Popen h (racer_call h settings
             [lit "complete-with-snippet"; str_of_int (r + 1); str_of_int c]
             context_path)
    = Raise FileNotFoundError ->
  on_query_completions h settings view prefix (location :: others) w
  = (Ok None,
     add_printed
       [PStr (lit "Unable to find racer executable (check settings)")]
       (add_spawned
          (racer_call h settings
             [lit "complete-with-snippet"; str_of_int (r + 1); str_of_int c]
             context_path) w)).
Proof.
  intros Hsel Hrc Hctx Hspawn.
  rewrite (on_query_completions_unfold _ _ _ _ _ _ _ _ _ Hsel Hrc).
  rewrite (run_racer_unfold _ _ _ _ _ _ _ Hctx). cbv zeta.
  by rewrite Hspawn.
Qed.

(** The definition request has no handler: the same fault leaves it as
    the exception, and nothing is printed. *)
Lemma definition_engine_not_found (h : Host) (settings : Settings)
    (view : View) (region : Z * Z) (others : list (Z * Z)) (r c : Z)
    (context_path : str) (w : World) :
  sel view = region :: others ->
  rowcol view (begin region) = (r, c) ->
  determine_context_path h view = Ok context_path ->
  Popen h (racer_call h settings
             [lit "find-definition"; str_of_int (r + 1); str_of_int c]
             context_path)
    = Raise FileNotFoundError ->
  RustGotoDefinitionCommand_run h settings view w
  = (Raise FileNotFoundError,
     add_spawned
       (racer_call h settings
          [lit "find-definition"; str_of_int (r + 1); str_of_int c]
          context_path) w).
Proof.
  intros Hsel Hrc Hctx Hspawn.
  rewrite (goto_definition_unfold _ _ _ _ _ _ _ _ Hsel Hrc).
  rewrite (run_racer_unfold _ _ _ _ _ _ _ Hctx). cbv zeta.
  by rewrite Hspawn.
Qed.

(** C7. With a racer binary that is not there, the completion request
    prints its message and returns nothing, but the definition request
    lets [FileNotFoundError] escape and prints nothing. A binary that is
    there but may not be executed escapes from the completion request as
    well. *)
Theorem missing_racer_escapes_goto_definition :
  on_query_completions (example_host missing_racer) example_settings
    example_view [] [0] empty_world
  = (Ok None,
     add_printed
       [PStr (lit "Unable to find racer executable (check settings)")]
       (add_spawned
          (racer_call (example_host missing_racer) example_settings
             [lit "complete-with-snippet"; lit "1"; lit "0"] (lit "/tmp/x.rs"))
          empty_world))
  /\ RustGotoDefinitionCommand_run (example_host missing_racer)
       example_settings example_view empty_world
     = (Raise FileNotFoundError,
        add_spawned
          (racer_call (example_host missing_racer) example_settings
             [lit "find-definition"; lit "1"; lit "0"] (lit "/tmp/x.rs"))
          empty_world)
  /\ fst (on_query_completions
            (example_host (fun _ => Raise PermissionError))
            example_settings example_view [] [0] empty_world)
     = Raise PermissionError.
Proof. repeat split; reflexivity. Qed.

(** C8, as the code has it. Both requests pass the row of the caret plus
    one and the column of the caret as it is: the row on the command line
    is 1-based, the column stays 0-based. *)
Theorem cursor_row_one_based_column_unchanged (h : Host)
    (settings : Settings) (view : View) (context_path : str) (w : World) :
  determine_context_path h view = Ok context_path ->
  (forall (prefix : str) (location : Z) (others : list Z) (r c : Z),
      match_selector view location (lit "source.rust") = true ->
      rowcol view location = (r, c) ->
      exists call : SpawnCall,
        spawned (snd (on_query_completions h settings view prefix
                        (location :: others) w))
          = spawned w ++ [call]
        /\ argv call = [racer_bin settings; lit "complete-with-snippet";
                        str_of_int (r + 1); str_of_int c;
                        context_path; lit "-"])
  /\ (forall (region : Z * Z) (others : list (Z * Z)) (r c : Z),
        sel view = region :: others ->
        rowcol view (begin region) = (r, c) ->
        exists call : SpawnCall,
          spawned (snd (RustGotoDefinitionCommand_run h settings view w))
            = spawned w ++ [call]
          /\ argv call = [racer_bin settings; lit "find-definition";
                          str_of_int (r + 1); str_of_int c;
                          context_path; lit "-"]).
Proof.
  intros Hctx. split.
  - intros prefix location others r c Hsel Hrc.
    exists (racer_call h settings
              [lit "complete-with-snippet"; str_of_int (r + 1); str_of_int c]
              context_path).
    split; [|reflexivity].
    rewrite (on_query_completions_unfold _ _ _ _ _ _ _ _ _ Hsel Hrc).
    pose proof (run_racer_spawned h settings view
                  (lit "complete-with-snippet")
                  [str_of_int (r + 1); str_of_int c] context_path w Hctx) as E.
    destruct (run_racer _ _ _ _ w) as [[raw|e] w1]; [exact E|].
    by destruct e.
  - intros region others r c Hsel Hrc.
    exists (racer_call h settings
              [lit "find-definition"; str_of_int (r + 1); str_of_int c]
              context_path).
    split; [|reflexivity].
    rewrite (goto_definition_unfold _ _ _ _ _ _ _ _ Hsel Hrc).
    pose proof (run_racer_spawned h settings view (lit "find-definition")
                  [str_of_int (r + 1); str_of_int c] context_path w Hctx) as E.
    destruct (run_racer _ _ _ _ w) as [[results|e] w1]; [|exact E].
    by destruct results as [|result [|? ?]].
Qed.

Lemma cursor_row_one_based_column_unchanged_witness :
  exists call : SpawnCall,
    spawned (snd (RustGotoDefinitionCommand_run
                    (example_host (example_racer [] 0))
                    example_settings example_view empty_world))
      = spawned empty_world ++ [call]
    /\ argv call = [lit "racer"; lit "find-definition";
                    str_of_int (0 + 1); str_of_int 0;
                    lit "/tmp/x.rs"; lit "-"].
Proof.
  refine (proj2 (cursor_row_one_based_column_unchanged
    (example_host (example_racer [] 0)) example_settings example_view
    (lit "/tmp/x.rs") empty_world _) (0, 0) [] 0 0 _ _).
  - reflexivity.
  - reflexivity.
  - reflexivity.
Defined.

(** C8, as the claim has it, fails: with the caret at row 0 and column 0
    the column on the command line is [0], not the 1-based [1]. *)
Lemma cursor_column_not_one_based :
  rowcol example_view (begin (0, 0)) = (0, 0)
  /\ exists call : SpawnCall,
       spawned (snd (RustGotoDefinitionCommand_run
                       (example_host (example_racer [] 0))
                       example_settings example_view empty_world))
         = [call]
       /\ argv call !! 3%nat = Some (str_of_int 0)
       /\ argv call !! 3%nat <> Some (str_of_int (0 + 1)).
Proof.
  split; [reflexivity|].
  eexists. split; [reflexivity|]. split; [reflexivity|].
  by vm_compute.
Qed.

(** * The settings object *)

Lemma Plugin_eq (p q : Plugin) :
  settings_global p = settings_global q ->
  racer_value (package_settings p) = racer_value (package_settings q) ->
  search_paths_value (package_settings p)
    = search_paths_value (package_settings q) ->
  on_change (package_settings p) = on_change (package_settings q) ->
  p = q.
Proof.
  destruct p as [sp [rp pp op]], q as [sq [rq pq oq]]. simpl.
  by intros -> -> -> ->.
Qed.

Section listener_sets.
Context `{Countable K}.

Lemma listeners_readded (a b : K) (X : gset K) :
  {[b]} ∪ ({[a]} ∪ (X ∖ {[a]}) ∖ {[b]}) = {[b]} ∪ ({[a]} ∪ X).
Proof.
  apply set_eq. intros x. set_unfold.
  destruct (decide (x = a)), (decide (x = b)); tauto.
Qed.

Lemma listeners_pair (a b : K) (X : gset K) :
  {[b]} ∪ ({[a]} ∪ X) = {[a; b]} ∪ X.
Proof. apply set_eq. intros x. set_unfold. tauto. Qed.

End listener_sets.

(** X1. A change of the settings leaves the module exactly as a load
    does, whatever the state before: the old instance is dropped, the new
    one reads the current values ([racer] by default, no search path by
    default), and both listeners are registered once. *)
Theorem settings_changed_is_reload (p : Plugin) :
  settings_changed p = plugin_loaded p
  /\ settings_global (settings_changed p)
     = Some {| racer_bin :=
                 default (lit "racer") (racer_value (package_settings p));
               search_paths :=
                 default [] (search_paths_value (package_settings p)) |}
  /\ on_change (package_settings (settings_changed p))
     = {[lit "racer"; lit "search_paths"]} ∪ on_change (package_settings p).
Proof.
  assert (E : settings_changed p = plugin_loaded p).
  { apply Plugin_eq; unfold settings_changed, plugin_loaded;
      destruct (settings_global p); try done.
    apply listeners_readded. }
  split; [done|]. rewrite E. split; [done|].
  apply listeners_pair.
Qed.

Lemma plugin_loaded_fresh (racer : option str) (paths : option (list str)) :
  plugin_loaded (fresh_plugin racer paths)
  = {| settings_global :=
         Some {| racer_bin := default (lit "racer") racer;
                 search_paths := default [] paths |};
       package_settings :=
         {| racer_value := racer; search_paths_value := paths;
            on_change := {[lit "racer"; lit "search_paths"]} |} |}.
Proof.
  by apply Plugin_eq.
Qed.

(** X2. From the imported module, any sequence of [plugin_loaded],
    [plugin_unloaded] and [settings_changed] ends in one of two states,
    decided by the last call alone: after [plugin_unloaded] (or no call)
    there is no instance and no listener; after the other two there is
    one instance with the current values and exactly the two listeners.
    So no listener is ever left behind by an unload, and none is doubled
    by a reload. *)
Theorem plugin_state_after_calls (racer : option str)
    (paths : option (list str)) (calls : list PluginCall) :
  foldl plugin_call (fresh_plugin racer paths) calls
  = match last calls with
    | Some CallLoaded | Some CallChanged =>
        {| settings_global :=
             Some {| racer_bin := default (lit "racer") racer;
                     search_paths := default [] paths |};
           package_settings :=
             {| racer_value := racer; search_paths_value := paths;
                on_change := {[lit "racer"; lit "search_paths"]} |} |}
    | Some CallUnloaded | None => fresh_plugin racer paths
    end.
Proof.
  induction calls as [|c calls IH] using rev_ind; [done|].
  rewrite foldl_app, last_snoc. cbn [foldl]. rewrite IH. clear IH.
  assert (Hload : forall q,
    (q = fresh_plugin racer paths
     \/ q = plugin_loaded (fresh_plugin racer paths)) ->
    plugin_loaded q = plugin_loaded (fresh_plugin racer paths)).
  { intros q [->| ->]; [done|]. by apply Plugin_eq. }
  assert (Hunload : forall q,
    (q = fresh_plugin racer paths
     \/ q = plugin_loaded (fresh_plugin racer paths)) ->
    plugin_unloaded q = fresh_plugin racer paths).
  { intros q [->| ->]; [done|]. by apply Plugin_eq. }
  rewrite <- plugin_loaded_fresh.
  assert (Hq : let q := match last calls with
                        | Some CallLoaded | Some CallChanged =>
                            plugin_loaded (fresh_plugin racer paths)
                        | _ => fresh_plugin racer paths
                        end in
               q = fresh_plugin racer paths
               \/ q = plugin_loaded (fresh_plugin racer paths)).
  { destruct (last calls) as [[]|]; simpl; auto. }
  cbv zeta in Hq.
  destruct c; cbn [plugin_call].
  - by apply Hload.
  - by apply Hunload.
  - rewrite (proj1 (settings_changed_is_reload _)). by apply Hload.
Qed.

(** * The context path *)

Lemma determine_context_path_unsaved (h : Host) (view : View) :
  file_name view = None ->
  determine_context_path h view
  = if (length (rust_directories h view) =? 0)%nat then Ok (lit "-")
    else
      let dirs := foldl count_item (∅, []) (rust_directories h view) in
      py_max (fun k => default 0%nat (fst dirs !! k))
             (dict_order (interp h) (snd dirs)).
Proof. intros Hf. unfold determine_context_path. by rewrite Hf. Qed.

Lemma occurrences_cons (k x : str) (l : list str) :
  occurrences k (x :: l)
  = ((if decide (x = k) then 1 else 0) + occurrences k l)%nat.
Proof.
  unfold occurrences. rewrite filter_cons. by destruct (decide (x = k)).
Qed.

Lemma occurrences_snoc (k x : str) (l : list str) :
  occurrences k (l ++ [x])
  = (occurrences k l + (if decide (x = k) then 1 else 0))%nat.
Proof.
  unfold occurrences. rewrite filter_app, length_app, filter_cons.
  by destruct (decide (x = k)).
Qed.

Lemma occurrences_not_elem (k : str) (l : list str) :
  k ∉ l -> occurrences k l = 0%nat.
Proof.
  induction l as [|x l IH]; [done|]. intros [Hx Hl]%not_elem_of_cons.
  rewrite occurrences_cons, IH by done. by destruct (decide (x = k)).
Qed.

(** The loop that counts: after [seen], the dictionary holds the number
    of occurrences of each item of [seen], and its keys are these items. *)
Lemma count_items_spec (items seen : list str) (m : gmap str nat)
    (keys : list str) :
  (forall k, default 0%nat (m !! k) = occurrences k seen) ->
  (forall k, is_Some (m !! k) <-> k ∈ keys) ->
  (forall k, k ∈ keys <-> k ∈ seen) ->
  let d := foldl count_item (m, keys) items in
  (forall k, default 0%nat (fst d !! k) = occurrences k (seen ++ items))
  /\ (forall k, k ∈ snd d <-> k ∈ seen ++ items).
Proof.
  revert seen m keys.
  induction items as [|item items IH]; intros seen m keys Hcount Hdom Hkeys.
  - simpl. rewrite app_nil_r. auto.
  - cbn [foldl].
    replace (seen ++ item :: items) with ((seen ++ [item]) ++ items)
      by (by rewrite <- app_assoc).
    rewrite (surjective_pairing (count_item (m, keys) item)).
    apply IH.
    + intros k. rewrite occurrences_snoc, <- Hcount.
      unfold count_item. cbn [fst snd].
      destruct (m !! item) as [n|] eqn:Hm; cbn [fst];
        (destruct (decide (item = k)) as [->|Hne];
          [rewrite lookup_insert_eq, ?Hm; simpl; lia
          |rewrite lookup_insert_ne by done; lia]).
    + intros k. unfold count_item. cbn [fst snd].
      destruct (m !! item) as [n|] eqn:Hm; cbn [fst snd].
      * destruct (decide (item = k)) as [->|Hne].
        -- rewrite lookup_insert_eq. split; [|by eauto].
           intros _. apply Hdom. by rewrite Hm.
        -- by rewrite lookup_insert_ne.
      * rewrite elem_of_app, list_elem_of_singleton.
        destruct (decide (item = k)) as [->|Hne].
        -- rewrite lookup_insert_eq. split; [by right | by eauto].
        -- rewrite lookup_insert_ne by done. rewrite Hdom.
           split; [by left | by intros [?| ->]].
    + intros k. unfold count_item. cbn [fst snd].
      rewrite elem_of_app, list_elem_of_singleton.
      destruct (m !! item) as [n|] eqn:Hm; cbn [snd].
      * rewrite Hkeys. split; [by left|]. intros [?| ->]; [done|].
        apply Hkeys, Hdom. by rewrite Hm.
      * by rewrite elem_of_app, list_elem_of_singleton, Hkeys.
Qed.

Lemma max_from_spec {A} (key : A -> nat) (l : list A) (best : A) :
  max_from key best l ∈ best :: l
  /\ forall x, x ∈ best :: l -> (key x <= key (max_from key best l))%nat.
Proof.
  revert best. induction l as [|y l IH]; intros best; cbn [max_from].
  - split; [by left|]. by intros x ->%list_elem_of_singleton.
  - destruct (IH (if (key best <? key y)%nat then y else best)) as [Hin Hmax].
    split.
    + apply elem_of_cons in Hin as [->|Hin].
      * destruct (key best <? key y)%nat; [right; left | left].
      * by do 2 right.
    + intros x Hx.
      assert (Hb : (key best <= key (max_from key
                      (if (key best <? key y)%nat then y else best) l))%nat
                   /\ (key y <= key (max_from key
                      (if (key best <? key y)%nat then y else best) l))%nat).
      { pose proof (Hmax _ (list_elem_of_here _ _)) as H0.
        destruct (Nat.ltb_spec (key best) (key y)); split; lia. }
      apply elem_of_cons in Hx as [->|[->|Hx]%elem_of_cons]; [lia|lia|].
      apply Hmax. by right.
Qed.

(** X3. For an unsaved buffer beside open Rust files, the context path is
    the transient file beside one of them, and no other candidate occurs
    more often among the open files: the most common directory wins. This
    holds for every order in which the dictionary yields its keys; when
    all open Rust files share a directory the result is the transient
    file of that directory. *)
Theorem context_path_most_common (h : Host) (view : View) :
  file_name view = None ->
  rust_directories h view <> [] ->
  (forall keys, dict_order (interp h) keys ≡ₚ keys) ->
  exists p,
    determine_context_path h view = Ok p
    /\ p ∈ rust_directories h view
    /\ (forall q, (occurrences q (rust_directories h view)
                   <= occurrences p (rust_directories h view))%nat)
    /\ (forall d, Forall (fun x => x = d) (rust_directories h view) -> p = d).
Proof.
  intros Hf Hne Hperm.
  rewrite (determine_context_path_unsaved _ _ Hf).
  destruct (rust_directories h view) as [|d0 ds] eqn:Hdirs; [done|].
  change (length (d0 :: ds) =? 0)%nat with false. cbv iota zeta.
  destruct (count_items_spec (d0 :: ds) [] ∅ []) as [Hcount Hkeys];
    [done | by intros k; rewrite lookup_empty, elem_of_nil; split;
               [intros [? [=]]|]
    | done |].
  cbv zeta in Hcount, Hkeys. rewrite app_nil_l in Hcount, Hkeys.
  set (dirs := foldl count_item (∅, []) (d0 :: ds)) in *.
  specialize (Hperm (snd dirs)).
  destruct (dict_order (interp h) (snd dirs)) as [|k ks] eqn:Hord.
  { exfalso. symmetry in Hperm. apply Permutation_nil_r in Hperm.
    pose proof (proj2 (Hkeys d0) (list_elem_of_here _ _)) as Hin.
    rewrite Hperm in Hin. by apply elem_of_nil in Hin. }
  cbn [py_max].
  destruct (max_from_spec (fun k => default 0%nat (fst dirs !! k)) ks k)
    as [Hin Hmax].
  set (p := max_from _ k ks) in *.
  assert (Hp : p ∈ d0 :: ds) by (apply Hkeys; by rewrite <- Hperm).
  exists p. split; [done|]. split; [done|]. split.
  - intros q. destruct (decide (q ∈ d0 :: ds)) as [Hq|Hq].
    + rewrite <- !Hcount. apply Hmax. rewrite Hperm. by apply Hkeys.
    + rewrite (occurrences_not_elem q (d0 :: ds) Hq). lia.
  - intros d Hall. rewrite Forall_forall in Hall. by apply Hall.
Qed.

Lemma context_path_most_common_witness :
  exists p,
    determine_context_path (example_host missing_racer) example_text_view
      = Ok p
    /\ p ∈ rust_directories (example_host missing_racer) example_text_view
    /\ (forall q,
          (occurrences q
             (rust_directories (example_host missing_racer) example_text_view)
           <= occurrences p
                (rust_directories (example_host missing_racer)
                   example_text_view))%nat)
    /\ (forall d,
          Forall (fun x => x = d)
            (rust_directories (example_host missing_racer) example_text_view)
          -> p = d).
Proof.
  refine (context_path_most_common (example_host missing_racer)
            example_text_view _ _ _).
  - reflexivity.
  - vm_compute. discriminate.
  - intros keys. simpl. reflexivity.
Defined.

(** X4. A saved buffer is its own context path, whatever else is open.
    An unsaved buffer in a window without any file whose name ends in
    [.rs] gets the dummy path ["-"]; files of other kinds and other
    unsaved buffers are not looked at. *)
Theorem context_path_saved_or_dummy (h : Host) (view : View) :
  (forall p, file_name view = Some p -> determine_context_path h view = Ok p)
  /\ (file_name view = None ->
      Forall (fun v => forall p, v = Some p -> slice_last 3 p <> lit ".rs")
        (window_views view) ->
      determine_context_path h view = Ok (lit "-")).
Proof.
  split.
  - intros p Hp. unfold determine_context_path. by rewrite Hp.
  - intros Hf Hall. rewrite (determine_context_path_unsaved _ _ Hf).
    assert (rust_directories h view = []) as ->; [|done].
    unfold rust_directories.
    induction Hall as [|v vs Hv _ IH]; [done|].
    destruct v as [p|]; cbn [omap list_omap id]; [|exact IH].
    cbn [List.filter]. unfold str_eqb at 1.
    rewrite bool_decide_eq_false_2 by (by apply Hv). exact IH.
Qed.

Lemma context_path_saved_or_dummy_witness :
  determine_context_path (example_host missing_racer) example_view
    = Ok (lit "/tmp/x.rs")
  /\ determine_context_path (example_host missing_racer)
       {| file_name := None;
          window_views := [None; Some (lit "/a/notes.txt"); Some (lit "rs")];
          buffer := [];
          rowcol := fun point => (0, point);
          sel := [];
          match_selector := fun _ _ => true |}
     = Ok (lit "-").
Proof.
  split.
  - refine (proj1 (context_path_saved_or_dummy _ example_view) _ _).
    reflexivity.
  - refine (proj2 (context_path_saved_or_dummy (example_host missing_racer) _)
              _ _); [reflexivity|].
    repeat constructor; intros p [= <-]; by vm_compute.
Defined.

(** * The child process *)

(** X5. The child inherits every variable of the editor's environment
    except [RUST_SRC_PATH], which is set for every call: to the
    configured search paths, each with its home directory expanded, in
    their order, followed by the inherited value when there is one, all
    joined by the path separator. The window of the child is hidden
    exactly on [nt]. *)
Theorem racer_environment (h : Host) (settings : Settings) (view : View)
    (cmd0 : str) (args : list str) (context_path : str) (w : World) :
  determine_context_path h view = Ok context_path ->
  exists call : SpawnCall,
    spawned (snd (run_racer h settings view (cmd0 :: args) w))
      = spawned w ++ [call]
    /\ env call !! lit "RUST_SRC_PATH"
       = Some (join (pathsep h)
                 (List.map (expanduser h) (search_paths settings)
                  ++ match environ h !! lit "RUST_SRC_PATH" with
                     | Some inherited => [inherited]
                     | None => []
                     end))
    /\ (forall k, k <> lit "RUST_SRC_PATH" -> env call !! k = environ h !! k)
    /\ use_show_window call = bool_decide (os_name h = lit "nt").
Proof.
  intros Hctx.
  exists (racer_call h settings (cmd0 :: args) context_path).
  split; [by apply run_racer_spawned|].
  cbn [env use_show_window racer_call]. unfold racer_env, expand_all.
  split; [|split; [|done]].
  - rewrite lookup_insert_eq.
    destruct (environ h !! lit "RUST_SRC_PATH"); [done|].
    by rewrite app_nil_r.
  - intros k Hk. by rewrite lookup_insert_ne.
Qed.

Lemma racer_environment_witness :
  exists call : SpawnCall,
    spawned (snd (run_racer (example_host missing_racer) example_settings
                    example_view [lit "find-definition"] empty_world))
      = spawned empty_world ++ [call]
    /\ env call !! lit "RUST_SRC_PATH"
       = Some (join (lit ":")
                 (List.map (fun p => p) [lit "/opt/rust/src"]
                  ++ match environ (example_host missing_racer)
                             !! lit "RUST_SRC_PATH" with
                     | Some inherited => [inherited]
                     | None => []
                     end))
    /\ (forall k, k <> lit "RUST_SRC_PATH" ->
          env call !! k = environ (example_host missing_racer) !! k)
    /\ use_show_window call = bool_decide (lit "posix" = lit "nt").
Proof.
  refine (racer_environment (example_host missing_racer) example_settings
            example_view (lit "find-definition") [] (lit "/tmp/x.rs")
            empty_world _).
  reflexivity.
Defined.

(** * The loop over the output lines *)

Lemma fmap_res_Raise {A B} (f : A -> B) (m : res A) (e : exn) :
  f <$> m = Raise e -> m = Raise e.
Proof. unfold fmap, res_fmap. destruct m; [done | by intros [= ->]]. Qed.

Lemma utf8_decode_raises (b : bytes) (e : exn) :
  utf8_decode b = Raise e -> e = UnicodeDecodeError.
Proof.
  remember (length b) as n eqn:Hn. revert b Hn.
  induction n as [n IH] using lt_wf_ind. intros b Hn H.
  destruct b as [|b0 r0]; [done|]. cbn [utf8_decode] in H.
  cbv zeta in H.
  repeat match type of H with
         | (if ?c then _ else _) = _ => destruct c
         | match ?l with [] => _ | _ :: _ => _ end = _ =>
             let x := fresh "b" in destruct l as [|x ?]
         | Raise _ = Raise _ => by injection H as <-
         | _ <$> utf8_decode ?r = Raise _ =>
             apply fmap_res_Raise in H;
             apply (IH (length r)) in H; [done | simpl in Hn; lia | done]
         end.
Qed.

Lemma int_of_str_raises (py : Interp) (s : str) (e : exn) :
  int_of_str py s = Raise e -> e = ValueError.
Proof.
  unfold int_of_str. intros H.
  repeat match type of H with
         | Raise _ = Raise _ => by injection H as <-
         | Ok _ = Raise _ => discriminate H
         | match ?x with _ => _ end = _ => destruct x eqn:?
         | (let '(_, _) := ?x in _) = _ => destruct x eqn:?
         end.
Qed.

Lemma Result_init_raises (py : Interp) (parts : list str) (e : exn) :
  Result_init py parts = Raise e -> e = IndexError \/ e = ValueError.
Proof.
  unfold Result_init. intros H.
  destruct parts as [|f0 [|f1 [|f2 [|f3 [|f4 [|f5 [|f6 extra]]]]]]];
    simpl in H;
    repeat match type of H with
           | context [int_of_str py ?f] =>
               let E := fresh "E" in
               destruct (int_of_str py f) eqn:E; simpl in H;
               [|apply int_of_str_raises in E]
           end;
    first [discriminate H | injection H as <-; (by left) || (by right)].
Qed.

Lemma parse_line_raises (py : Interp) (with_snippet : bool) (line : str)
    (e : exn) :
  parse_line py with_snippet line = Raise e ->
  e = IndexError \/ e = ValueError.
Proof.
  unfold parse_line. destruct (startswith line match_string); [|done].
  destruct (Result_init py _) eqn:E; [done|].
  intros [= <-]. by apply Result_init_raises in E.
Qed.

Lemma parse_line_Some_match (py : Interp) (with_snippet : bool) (line : str)
    (r : Result) :
  parse_line py with_snippet line = Ok (Some r) ->
  startswith line match_string = true.
Proof. unfold parse_line. by destruct (startswith line match_string). Qed.

Lemma parse_line_None_match (py : Interp) (with_snippet : bool) (line : str) :
  parse_line py with_snippet line = Ok None ->
  startswith line match_string = false.
Proof.
  unfold parse_line. destruct (startswith line match_string); [|done].
  by destruct (Result_init py _).
Qed.

Lemma parse_lines_acc (py : Interp) (with_snippet : bool)
    (lines : list bytes) (acc : list Result) :
  parse_lines py with_snippet lines acc
  = (new ← parse_lines py with_snippet lines []; Ok (acc ++ new)).
Proof.
  revert acc. induction lines as [|bl lines IH]; intros acc; simpl.
  - by rewrite app_nil_r.
  - destruct (utf8_decode bl) as [line|]; [|done]. simpl.
    destruct (parse_line py with_snippet line) as [[r|]|]; simpl; [| |done].
    + rewrite (IH (acc ++ [r])), (IH [r]).
      destruct (parse_lines py with_snippet lines []); [|done].
      simpl. by rewrite <- app_assoc.
    + by rewrite (IH acc).
Qed.

Lemma parse_lines_app (py : Interp) (with_snippet : bool)
    (l1 l2 : list bytes) (acc : list Result) :
  parse_lines py with_snippet (l1 ++ l2) acc
  = (rs ← parse_lines py with_snippet l1 acc;
     parse_lines py with_snippet l2 rs).
Proof.
  revert acc. induction l1 as [|bl l1 IH]; intros acc; simpl; [done|].
  destruct (utf8_decode bl) as [line|]; [|done]. simpl.
  destruct (parse_line py with_snippet line) as [r|]; [|done]. simpl.
  apply IH.
Qed.

Lemma parse_lines_count (py : Interp) (with_snippet : bool)
    (lines : list bytes) (rs : list Result) :
  parse_lines py with_snippet lines [] = Ok rs ->
  length rs = length (filter (fun bl => is_match_line bl = true) lines).
Proof.
  revert rs. induction lines as [|bl lines IH]; intros rs; simpl.
  - by intros [= <-].
  - destruct (utf8_decode bl) as [line|] eqn:Hd; [|done]. simpl.
    assert (Hm : is_match_line bl = startswith line match_string)
      by (unfold is_match_line; by rewrite Hd).
    rewrite filter_cons.
    destruct (parse_line py with_snippet line) as [[r|]|] eqn:Hl; [| |done];
      simpl.
    + rewrite (parse_line_Some_match _ _ _ _ Hl) in Hm. rewrite parse_lines_acc.
      destruct (parse_lines py with_snippet lines []) as [new|]; [|done].
      simpl. intros [= <-]. rewrite decide_True by done.
      cbn [length]. f_equal. by apply IH.
    + rewrite (parse_line_None_match _ _ _ Hl) in Hm.
      rewrite decide_False by (by rewrite Hm). apply IH.
Qed.

(** X6. When the output parses, there is one record for every line that
    starts with [MATCH ], and the records come in the order of the lines:
    wherever the output is cut in two, the records of the first part come
    first and those of the second part follow, each part parsing on its
    own. *)
Theorem records_follow_output (py : Interp) (with_snippet : bool)
    (lines : list bytes) (rs : list Result) :
  parse_lines py with_snippet lines [] = Ok rs ->
  length rs = length (filter (fun bl => is_match_line bl = true) lines)
  /\ forall l1 l2, lines = l1 ++ l2 ->
       exists r1 r2,
         rs = r1 ++ r2
         /\ parse_lines py with_snippet l1 [] = Ok r1
         /\ parse_lines py with_snippet l2 [] = Ok r2.
Proof.
  intros H. split; [by eapply parse_lines_count|].
  intros l1 l2 ->. rewrite parse_lines_app in H.
  destruct (parse_lines py with_snippet l1 []) as [r1|]; [|done].
  simpl in H. rewrite parse_lines_acc in H.
  destruct (parse_lines py with_snippet l2 []) as [r2|]; [|done].
  simpl in H. injection H as <-. by exists r1, r2.
Qed.

Lemma records_follow_output_witness :
  length [ {| completion := lit "a"; snippet := lit "b"; row := 1;
              column := 2; path := lit "p"; type := lit "Enum";
              context := lit "c" |} ]
  = length (filter (fun bl => is_match_line bl = true)
              [blit "note"; blit "MATCH a;b;1;2;p;Enum;c"; blit "END"]).
Proof.
  refine (proj1 (records_follow_output example_interp true
    [blit "note"; blit "MATCH a;b;1;2;p;Enum;c"; blit "END"] _ _)).
  reflexivity.
Defined.

Lemma parse_lines_no_match (py : Interp) (with_snippet : bool)
    (lines : list bytes) (acc : list Result) :
  Forall (fun bl => is_match_line bl = false) lines ->
  (Forall (fun bl => exists line, utf8_decode bl = Ok line) lines ->
   parse_lines py with_snippet lines acc = Ok acc)
  /\ (Exists (fun bl => exists e, utf8_decode bl = Raise e) lines ->
      parse_lines py with_snippet lines acc = Raise UnicodeDecodeError).
Proof.
  induction 1 as [|bl lines Hbl _ [IH1 IH2]].
  - split; [done|]. by intros ?%Exists_nil.
  - cbn [parse_lines]. unfold is_match_line in Hbl.
    destruct (utf8_decode bl) as [line|e] eqn:Hd.
    + cbn [mbind res_bind]. unfold parse_line. rewrite Hbl. split.
      * intros [_ Hall]%Forall_cons. by apply IH1.
      * intros [(e & He)|Hex]%Exists_cons; [congruence | by apply IH2].
    + cbn [mbind res_bind]. rewrite (utf8_decode_raises _ _ Hd). split.
      * intros [(line & Hl) _]%Forall_cons. congruence.
      * done.
Qed.

(** X7. With exit status zero and an output of which no line decodes to
    text that starts with [MATCH ], empty output included, [run_racer]
    prints nothing and opens nothing, its one effect being the spawned
    process: it returns the empty list when every line is valid UTF-8,
    and raises [UnicodeDecodeError] when some line is not. *)
Theorem output_without_match_is_empty (h : Host) (settings : Settings)
    (view : View) (cmd0 : str) (args : list str) (context_path : str)
    (process : Process) (input output err : bytes) (w : World) :
  determine_context_path h view = Ok context_path ->
  Popen h (racer_call h settings (cmd0 :: args) context_path) = Ok process ->
  utf8_encode (buffer view) = Ok input ->
  process input = (output, err, 0) ->
  Forall (fun bl => is_match_line bl = false) (splitlines output) ->
  (Forall (fun bl => exists line, utf8_decode bl = Ok line)
     (splitlines output) ->
   run_racer h settings view (cmd0 :: args) w
   = (Ok [],
      add_spawned (racer_call h settings (cmd0 :: args) context_path) w))
  /\ (Exists (fun bl => exists e, utf8_decode bl = Raise e)
        (splitlines output) ->
      run_racer h settings view (cmd0 :: args) w
      = (Raise UnicodeDecodeError,
         add_spawned (racer_call h settings (cmd0 :: args) context_path) w)).
Proof.
  intros Hctx Hspawn Hin Hout Hlines.
  rewrite (run_racer_unfold _ _ _ _ _ _ _ Hctx). cbv zeta.
  rewrite Hspawn, Hin, Hout. cbn [Z.eqb].
  destruct (parse_lines_no_match (interp h)
              (str_eqb cmd0 (lit "complete-with-snippet"))
              (splitlines output) [] Hlines) as [H1 H2].
  split; intros H'; [by rewrite H1 | by rewrite H2].
Qed.

Lemma output_without_match_is_empty_witness :
  run_racer
    (example_host (example_racer (blit "warning: no manifest") 0))
    example_settings example_view
    [lit "complete-with-snippet"; lit "1"; lit "0"] empty_world
  = (Ok [],
     add_spawned
       (racer_call
          (example_host (example_racer (blit "warning: no manifest") 0))
          example_settings
          [lit "complete-with-snippet"; lit "1"; lit "0"] (lit "/tmp/x.rs"))
       empty_world)
  /\ run_racer
       (example_host (example_racer [Byte.x77; Byte.xff] 0))
       example_settings example_view
       [lit "complete-with-snippet"; lit "1"; lit "0"] empty_world
     = (Raise UnicodeDecodeError,
        add_spawned
          (racer_call
             (example_host (example_racer [Byte.x77; Byte.xff] 0))
             example_settings
             [lit "complete-with-snippet"; lit "1"; lit "0"]
             (lit "/tmp/x.rs"))
          empty_world).
Proof.
  split.
  - refine (proj1 (output_without_match_is_empty
      (example_host (example_racer (blit "warning: no manifest") 0))
      example_settings example_view (lit "complete-with-snippet")
      [lit "1"; lit "0"] (lit "/tmp/x.rs")
      (fun _ => (blit "warning: no manifest", [], 0)) (blit "fn main() {}")
      (blit "warning: no manifest") [] empty_world _ _ _ _ _) _).
    + reflexivity.
    + reflexivity.
    + reflexivity.
    + reflexivity.
    + repeat constructor.
    + repeat constructor. by exists (lit "warning: no manifest").
  - refine (proj2 (output_without_match_is_empty
      (example_host (example_racer [Byte.x77; Byte.xff] 0))
      example_settings example_view (lit "complete-with-snippet")
      [lit "1"; lit "0"] (lit "/tmp/x.rs")
      (fun _ => ([Byte.x77; Byte.xff], [], 0)) (blit "fn main() {}")
      [Byte.x77; Byte.xff] [] empty_world _ _ _ _ _) _).
    + reflexivity.
    + reflexivity.
    + reflexivity.
    + reflexivity.
    + repeat constructor.
    + apply Exists_cons_hd. by exists UnicodeDecodeError.
Defined.

Lemma parse_lines_raises (py : Interp) (with_snippet : bool)
    (lines : list bytes) (acc : list Result) (e : exn) :
  parse_lines py with_snippet lines acc = Raise e ->
  e = UnicodeDecodeError \/ e = IndexError \/ e = ValueError.
Proof.
  revert acc. induction lines as [|bl lines IH]; intros acc; [done|].
  cbn [parse_lines].
  destruct (utf8_decode bl) as [line|e'] eqn:Hd; cbn [mbind res_bind].
  - destruct (parse_line py with_snippet line) as [r|e'] eqn:Hl.
    + apply IH.
    + intros [= <-]. right. by eapply parse_line_raises.
  - intros [= <-]. left. by eapply utf8_decode_raises.
Qed.

(** X8. Once the process is spawned and has answered, [run_racer] raises
    only when the exit status is zero, and then only [UnicodeDecodeError]
    (a line that is not UTF-8), [IndexError] (a [MATCH] line with too few
    fields) or [ValueError] (a row or column that is no integer). *)
Theorem run_racer_raises_only (h : Host) (settings : Settings) (view : View)
    (cmd0 : str) (args : list str) (context_path : str)
    (process : Process) (input output err : bytes) (exit_code : Z)
    (w : World) (e : exn) :
  determine_context_path h view = Ok context_path ->
  Popen h (racer_call h settings (cmd0 :: args) context_path) = Ok process ->
  utf8_encode (buffer view) = Ok input ->
  process input = (output, err, exit_code) ->
  fst (run_racer h settings view (cmd0 :: args) w) = Raise e ->
  exit_code = 0
  /\ (e = UnicodeDecodeError \/ e = IndexError \/ e = ValueError).
Proof.
  intros Hctx Hspawn Hin Hout.
  rewrite (run_racer_unfold _ _ _ _ _ _ _ Hctx). cbv zeta.
  rewrite Hspawn, Hin, Hout.
  destruct (Z.eqb_spec exit_code 0) as [->|_]; [|done].
  cbn [fst]. intros H. split; [done|]. by eapply parse_lines_raises.
Qed.

Lemma run_racer_raises_only_witness :
  0 = 0
  /\ (ValueError = UnicodeDecodeError \/ ValueError = IndexError
      \/ ValueError = ValueError).
Proof.
  refine (run_racer_raises_only
    (example_host (example_racer (blit "MATCH a;b;x;2;p;Enum;c") 0))
    example_settings example_view (lit "complete-with-snippet")
    [lit "1"; lit "0"] (lit "/tmp/x.rs")
    (fun _ => (blit "MATCH a;b;x;2;p;Enum;c", [], 0)) (blit "fn main() {}")
    (blit "MATCH a;b;x;2;p;Enum;c") [] 0 empty_world ValueError _ _ _ _ _).
  - reflexivity.
  - reflexivity.
  - reflexivity.
  - reflexivity.
  - reflexivity.
Defined.

(** X9. A line that is not valid UTF-8 makes the whole call fail with
    [UnicodeDecodeError], whether or not it is a [MATCH] line: it is
    decoded before the prefix is looked at, and the records of the lines
    before it are lost with it. *)
Theorem undecodable_line_loses_records (py : Interp) (with_snippet : bool)
    (before after : list bytes) (bad : bytes) (e : exn)
    (acc rs : list Result) :
  parse_lines py with_snippet before acc = Ok rs ->
  utf8_decode bad = Raise e ->
  parse_lines py with_snippet (before ++ bad :: after) acc
  = Raise UnicodeDecodeError.
Proof.
  intros Hbefore Hbad. rewrite parse_lines_app, Hbefore.
  cbn [mbind res_bind parse_lines]. rewrite Hbad.
  by rewrite (utf8_decode_raises _ _ Hbad).
Qed.

Lemma undecodable_line_loses_records_witness :
  parse_lines example_interp true
    ([blit "MATCH a;b;1;2;p;Enum;c"] ++ [Byte.xff] :: [blit "END"]) []
  = Raise UnicodeDecodeError.
Proof.
  refine (undecodable_line_loses_records example_interp true
    [blit "MATCH a;b;1;2;p;Enum;c"] [blit "END"] [Byte.xff]
    UnicodeDecodeError [] _ _ _).
  - reflexivity.
  - reflexivity.
Defined.

(** * Records *)

(** X10. [Result(parts)] succeeds exactly when [parts] has at least seven
    elements of which the third and the fourth are integers; the record
    then holds the first seven, and anything behind them is not read. *)
Theorem record_made_iff (py : Interp) (parts : list str) (r : Result) :
  Result_init py parts = Ok r
  <-> exists f2 f3 extra,
        parts = completion r :: snippet r :: f2 :: f3
                :: path r :: type r :: context r :: extra
        /\ int_of_str py f2 = Ok (row r)
        /\ int_of_str py f3 = Ok (column r).
Proof.
  split; [apply Result_init_Ok_inv|].
  intros (f2 & f3 & extra & -> & H2 & H3).
  rewrite Result_init_seven, H2, H3. by destruct r.
Qed.

(** X11. The order of the faults of [Result(parts)]: with fewer than three
    elements it is [IndexError]; a third element that is no integer is a
    [ValueError], also when later fields are missing; so is a fourth
    element that is no integer; and with two integers but fewer than
    seven elements it is [IndexError] again. *)
Theorem record_fault_order (py : Interp) (parts : list str) :
  ((length parts < 3)%nat -> Result_init py parts = Raise IndexError)
  /\ (forall f2 e,
        parts !! 2%nat = Some f2 -> int_of_str py f2 = Raise e ->
        Result_init py parts = Raise ValueError)
  /\ (forall f2 f3 r e,
        parts !! 2%nat = Some f2 -> int_of_str py f2 = Ok r ->
        parts !! 3%nat = Some f3 -> int_of_str py f3 = Raise e ->
        Result_init py parts = Raise ValueError)
  /\ (forall f2 r,
        parts !! 2%nat = Some f2 -> int_of_str py f2 = Ok r ->
        (length parts < 4)%nat ->
        Result_init py parts = Raise IndexError)
  /\ (forall f2 f3 r c,
        parts !! 2%nat = Some f2 -> int_of_str py f2 = Ok r ->
        parts !! 3%nat = Some f3 -> int_of_str py f3 = Ok c ->
        (length parts < 7)%nat ->
        Result_init py parts = Raise IndexError).
Proof.
  unfold Result_init.
  destruct parts as [|f0 [|f1 [|g2 [|g3 [|f4 [|f5 [|f6 extra]]]]]]];
    cbn [length lookup list_lookup index mbind res_bind];
    repeat split; intros; simplify_eq; try lia; try done;
    repeat match goal with
           | H : int_of_str py _ = Raise ?e |- _ =>
               pose proof (int_of_str_raises _ _ _ H); subst e; rewrite H
           | H : int_of_str py _ = Ok _ |- _ => rewrite H
           end; done.
Qed.

Lemma split_six_and_more (sep : codepoint) (g0 g1 g2 g3 g4 g5 more : str) :
  Forall (free_of sep) [g0; g1; g2; g3; g4; g5] ->
  split sep 6 (join [sep] [g0; g1; g2; g3; g4; g5] ++ sep :: more)
  = [g0; g1; g2; g3; g4; g5; more].
Proof.
  intros Hf.
  replace (join [sep] [g0; g1; g2; g3; g4; g5] ++ sep :: more)
    with (closed_fields sep [g0; g1; g2; g3; g4; g5] ++ more).
  - pose proof (split_closed_fields sep [g0; g1; g2; g3; g4; g5] 0 more Hf)
      as E.
    cbn [length Nat.add] in E. by rewrite E.
  - cbn [closed_fields List.map concat join]. by rewrite <- !app_assoc.
Qed.

(** X12. Under [find-definition] the context is cut at its first comma:
    a line whose sixth field is followed by a comma and more text parses
    like the line that ends with the sixth field, so a signature such as
    [fn f(a: u8, b: u8)] loses everything behind [a: u8]. *)
Theorem definition_context_cut_at_comma (py : Interp)
    (g0 g1 g2 g3 g4 g5 more : str) :
  Forall (free_of (chr ",")) [g0; g1; g2; g3; g4; g5] ->
  parse_line py false
    (definition_line [g0; g1; g2; g3; g4; g5] ++ chr "," :: more)
  = parse_line py false (definition_line [g0; g1; g2; g3; g4; g5]).
Proof.
  intros Hf. unfold definition_line.
  rewrite <- app_assoc, !parse_line_match.
  rewrite split_six_and_more by done.
  by rewrite split_six_fields by (done || lia).
Qed.

Lemma definition_context_cut_at_comma_witness :
  parse_line example_interp false
    (definition_line [lit "f"; lit "5"; lit "2"; lit "/p/lib.rs";
                      lit "Function"; lit "fn f(a: u8"]
     ++ chr "," :: lit " b: u8)")
  = parse_line example_interp false
      (definition_line [lit "f"; lit "5"; lit "2"; lit "/p/lib.rs";
                        lit "Function"; lit "fn f(a: u8"]).
Proof.
  refine (definition_context_cut_at_comma example_interp
    (lit "f") (lit "5") (lit "2") (lit "/p/lib.rs") (lit "Function")
    (lit "fn f(a: u8") (lit " b: u8)") _).
  repeat constructor; compute_done.
Defined.

(** * The completion request *)

Lemma non_rust_completions (h : Host) (settings : Settings)
    (view : View) (prefix : str) (location : Z) (others : list Z)
    (w : World) :
  match_selector view location (lit "source.rust") = false ->
  on_query_completions h settings view prefix (location :: others) w
  = (Ok None, w).
Proof.
  intros Hsel. unfold on_query_completions, mbind, M_bind, lift.
  cbn [index lookup list_lookup]. by rewrite Hsel.
Qed.



Lemma foldl_max_spec {A} (f : A -> Z) (l : list A) (a0 : Z) :
  let m := foldl (fun a x => Z.max a (f x)) a0 l in
  a0 <= m
  /\ (forall x, x ∈ l -> f x <= m)
  /\ (m = a0 \/ exists x, x ∈ l /\ m = f x).
Proof.
  revert a0. induction l as [|y l IH]; intros a0; cbn [foldl].
  - split; [lia|]. split; [|by left]. by intros x ?%elem_of_nil.
  - destruct (IH (Z.max a0 (f y))) as (H0 & Hall & Hex).
    cbv zeta in *.
    set (m := foldl (fun a x => Z.max a (f x)) (Z.max a0 (f y)) l) in *.
    split; [lia|]. split.
    + intros x [->|Hx]%elem_of_cons; [lia | by apply Hall].
    + destruct Hex as [Hm|(x & Hx & Hm)].
      * destruct (Z.max_spec a0 (f y)) as [[_ E]|[_ E]].
        -- right. exists y. split; [by left | lia].
        -- left. lia.
      * right. exists x. split; [by right | done].
Qed.

Lemma label_column_perm (l1 l2 : list Result) :
  l1 ≡ₚ l2 -> label_column l1 = label_column l2.
Proof.
  intros Hp. unfold label_column.
  destruct (foldl_max_spec (fun r => len (completion r) + len (type r)) l1 0)
    as (H1 & Hall1 & Hex1).
  destruct (foldl_max_spec (fun r => len (completion r) + len (type r)) l2 0)
    as (H2 & Hall2 & Hex2).
  cbv zeta in *.
  apply Z.le_antisymm.
  - destruct Hex1 as [->|(x & Hx & ->)]; [done|].
    apply Hall2. by rewrite <- Hp.
  - destruct Hex2 as [->|(x & Hx & ->)]; [done|].
    apply Hall1. by rewrite Hp.
Qed.

Lemma len_app (a b : str) : len (a ++ b) = len a + len b.
Proof. unfold len. rewrite length_app. lia. Qed.

Lemma len_spaces (n : Z) : len (spaces n) = Z.max 0 n.
Proof. unfold len, spaces. rewrite length_replicate. lia. Qed.

Lemma len_nonneg (s : str) : 0 <= len s.
Proof. unfold len. lia. Qed.

Lemma format_completions_unfold (h : Host) (raw_results : list Result) :
  format_completions h raw_results
  = let lalign := label_column raw_results in
    match sorted cmp raw_results with
    | [] => None
    | r0 :: rs =>
        let results :=
          List.map (fun r => (display_line lalign r, snippet r)) (r0 :: rs) in
        let longest := foldl (fun a p => Z.max a (len (fst p))) 0 results in
        Some ((display_line lalign r0
               ++ spaces (Z.max 0 (longest - len (display_line lalign r0) - 2)),
               snippet r0)
              :: List.map (fun r => (display_line lalign r, snippet r)) rs,
              Z.lor (INHIBIT_WORD_COMPLETIONS h)
                    (INHIBIT_EXPLICIT_COMPLETIONS h))
    end.
Proof.
  unfold format_completions.
  fold (label_column (sorted cmp raw_results)).
  rewrite (label_column_perm _ _ (sorted_perm cmp raw_results)).
  by destruct (sorted cmp raw_results).
Qed.

(** C4. The presenter ranks the records before it makes the rows: the
    ranked list is a permutation of the parsed one, its ranks never
    decrease, the rank is Module before Function before Struct before
    Trait before Type before Enum before any other kind, and the ranking
    is stable, so the records of one kind (and of one rank) keep the
    order in which racer printed them. What the presenter returns is
    made from the ranked list, row by row: nothing when it is empty, and
    otherwise the display line and the snippet of each record in ranked
    order, the first line padded, with both flags. *)
Theorem completions_ranked_stably (h : Host) (raw_results : list Result) :
  let ranked := sorted cmp raw_results in
  ranked ≡ₚ raw_results
  /\ StronglySorted (fun a b => (cmp a <= cmp b)%nat) ranked
  /\ (forall r, cmp r = spec_rank (type r))
  /\ (forall kind : str,
        filter (fun r => type r = kind) ranked
        = filter (fun r => type r = kind) raw_results)
  /\ (forall rank : nat,
        filter (fun r => cmp r = rank) ranked
        = filter (fun r => cmp r = rank) raw_results)
  /\ format_completions h raw_results
     = (let lalign := label_column ranked in
        let longest :=
          foldl (fun a p => Z.max a (len (fst p))) 0
            (List.map (fun r => (display_line lalign r, snippet r)) ranked) in
        match ranked with
        | [] => None
        | first :: others =>
            Some ((display_line lalign first
                   ++ spaces (Z.max 0 (longest
                                       - len (display_line lalign first) - 2)),
                   snippet first)
                  :: List.map (fun r => (display_line lalign r, snippet r))
                       others,
                  Z.lor (INHIBIT_WORD_COMPLETIONS h)
                        (INHIBIT_EXPLICIT_COMPLETIONS h))
        end)
  /\ (format_completions h raw_results = None <-> raw_results = [])
  /\ (forall rows flags,
        format_completions h raw_results = Some (rows, flags) ->
        Forall2
          (fun row r =>
             snd row = snippet r
             /\ exists pad,
                  fst row = display_line (label_column ranked) r ++ spaces pad)
          rows ranked).
Proof.
  intros ranked.
  assert (Hperm : ranked ≡ₚ raw_results) by apply sorted_perm.
  assert (Heq : format_completions h raw_results
     = (let lalign := label_column ranked in
        let longest :=
          foldl (fun a p => Z.max a (len (fst p))) 0
            (List.map (fun r => (display_line lalign r, snippet r)) ranked) in
        match ranked with
        | [] => None
        | first :: others =>
            Some ((display_line lalign first
                   ++ spaces (Z.max 0 (longest
                                       - len (display_line lalign first) - 2)),
                   snippet first)
                  :: List.map (fun r => (display_line lalign r, snippet r))
                       others,
                  Z.lor (INHIBIT_WORD_COMPLETIONS h)
                        (INHIBIT_EXPLICIT_COMPLETIONS h))
        end)).
  { unfold format_completions. fold ranked. fold (label_column ranked).
    by destruct ranked. }
  split; [done|]. split; [apply sorted_sorted|].
  split; [apply cmp_spec_rank|]. split; [|split; [|split; [done|split]]].
  - intros kind. apply sorted_filter. intros a b Ha Hb.
    unfold cmp. by rewrite Ha, Hb.
  - intros rank. apply sorted_filter. intros a b Ha Hb. congruence.
  - rewrite Heq. cbv zeta. destruct ranked as [|r0 rs].
    + apply Permutation_nil_l in Hperm as ->. done.
    + split; [done|]. intros ->. by apply Permutation_nil_r in Hperm.
  - intros rows flags. rewrite Heq. cbv zeta.
    destruct ranked as [|r0 rs]; [done|].
    generalize (label_column (r0 :: rs)). intros L.
    intros [= <- _]. constructor.
    + split; [done|]. by eexists.
    + clear. induction rs as [|r rs IH]; [constructor|].
      cbn [List.map]. constructor; [|done].
      split; [done|]. exists 0.
      change (spaces 0) with (@nil codepoint). by rewrite app_nil_r.
Qed.

Lemma completions_ranked_stably_witness :
  format_completions (example_host missing_racer)
    [{| completion := lit "e"; snippet := lit "e"; row := 1; column := 0;
        path := lit "/x.rs"; type := lit "Enum"; context := lit "enum e" |};
     {| completion := lit "f"; snippet := lit "f()"; row := 2; column := 0;
        path := lit "/x.rs"; type := lit "Function";
        context := lit "fn f()" |};
     {| completion := lit "m"; snippet := lit "m"; row := 3; column := 0;
        path := lit "/x.rs"; type := lit "Module"; context := lit "/m.rs" |};
     {| completion := lit "g"; snippet := lit "g()"; row := 4; column := 0;
        path := lit "/x.rs"; type := lit "Function";
        context := lit "fn g()" |}]
  = Some ([(lit "m     Module       ", lit "m");
           (lit "f   Function : fn f()", lit "f()");
           (lit "g   Function : fn g()", lit "g()");
           (lit "e       Enum : enum e", lit "e")],
          24).
Proof.
  refine (eq_trans
    (proj1 (proj2 (proj2 (proj2 (proj2 (proj2
       (completions_ranked_stably (example_host missing_racer) _)))))))
    _).
  reflexivity.
Defined.

(** X14. The completion rows: there are none exactly when racer gave no
    record; otherwise there is one row for every record, and the flags
    that inhibit the word and explicit completions of the editor are
    both set. *)
Theorem completion_rows_count (h : Host) (raw_results : list Result) :
  (format_completions h raw_results = None <-> raw_results = [])
  /\ forall rows flags,
       format_completions h raw_results = Some (rows, flags) ->
       length rows = length raw_results
       /\ flags = Z.lor (INHIBIT_WORD_COMPLETIONS h)
                        (INHIBIT_EXPLICIT_COMPLETIONS h).
Proof.
  rewrite format_completions_unfold. cbv zeta.
  pose proof (sorted_perm cmp raw_results) as Hp.
  destruct (sorted cmp raw_results) as [|r0 rs].
  - apply Permutation_nil_l in Hp as ->. split; [done|]. by intros.
  - split.
    + split; [done|]. intros ->. by apply Permutation_nil_r in Hp.
    + intros rows flags [= <- <-]. split; [|done].
      rewrite <- (Permutation_length Hp). cbn [length].
      by rewrite length_map.
Qed.

Lemma display_line_parts (lalign : Z) (r : Result) :
  display_line lalign r
  = (completion r ++ lit "   "
     ++ spaces (lalign - len (completion r) - len (type r)) ++ type r)
    ++ (if bool_decide (type r = lit "Module") then []
        else lit " : " ++ context r).
Proof.
  unfold display_line, rjust, str_eqb.
  rewrite <- !app_assoc. do 3 f_equal.
  by destruct (bool_decide (type r = lit "Module")).
Qed.

Lemma label_end (lalign : Z) (r : Result) :
  len (completion r) + len (type r) <= lalign ->
  len (completion r ++ lit "   "
       ++ spaces (lalign - len (completion r) - len (type r)) ++ type r)
  = lalign + 3.
Proof.
  intros Hle. rewrite !len_app, len_spaces.
  change (len (lit "   ")) with 3. lia.
Qed.

(** X15. The rows are aligned: every row is the completion, three
    spaces, the kind flushed right so that it ends in the same column in
    every row (the widest completion with its kind, plus three), then
    [ : ] and the context unless the kind is [Module], then spaces only.
    Each row carries the snippet of its record. *)
Theorem completion_rows_aligned (h : Host) (raw_results : list Result)
    (rows : list (str * str)) (flags : Z) :
  format_completions h raw_results = Some (rows, flags) ->
  Forall2
    (fun row r =>
       snd row = snippet r
       /\ exists pad,
            fst row
            = (completion r ++ lit "   "
               ++ spaces (label_column raw_results
                          - len (completion r) - len (type r))
               ++ type r)
              ++ (if bool_decide (type r = lit "Module") then []
                  else lit " : " ++ context r)
              ++ spaces pad
            /\ len (completion r ++ lit "   "
                    ++ spaces (label_column raw_results
                               - len (completion r) - len (type r))
                    ++ type r)
               = label_column raw_results + 3)
    rows (sorted cmp raw_results).
Proof.
  rewrite format_completions_unfold. cbv zeta.
  assert (Hle : forall r, r ∈ sorted cmp raw_results ->
            len (completion r) + len (type r) <= label_column raw_results).
  { intros r Hr. rewrite (sorted_perm cmp raw_results) in Hr.
    by apply (foldl_max_spec
                (fun r => len (completion r) + len (type r)) raw_results 0). }
  destruct (sorted cmp raw_results) as [|r0 rs]; [done|].
  intros [= <- _]. constructor.
  - split; [done|]. eexists. split.
    + cbn [fst]. rewrite display_line_parts, <- !app_assoc. reflexivity.
    + apply label_end, Hle. by left.
  - assert (Hrs : forall r, r ∈ rs ->
              len (completion r) + len (type r) <= label_column raw_results)
      by (intros r Hr; apply Hle; by right).
    clear Hle. induction rs as [|r rs IH]; [constructor|].
    cbn [List.map]. constructor.
    + split; [done|]. exists 0. split.
      * cbn [fst]. rewrite display_line_parts, <- !app_assoc.
        change (spaces 0) with (@nil codepoint). by rewrite app_nil_r.
      * apply label_end, Hrs. by left.
    + apply IH. intros r' Hr'. apply Hrs. by right.
Qed.

Lemma completion_rows_aligned_witness :
  Forall2
    (fun row r =>
       snd row = snippet r
       /\ exists pad,
            fst row
            = (completion r ++ lit "   "
               ++ spaces (label_column
                            [{| completion := lit "foo"; snippet := lit "foo()";
                                row := 3; column := 10; path := lit "/x.rs";
                                type := lit "Function";
                                context := lit "fn foo()" |}]
                          - len (completion r) - len (type r))
               ++ type r)
              ++ (if bool_decide (type r = lit "Module") then []
                  else lit " : " ++ context r)
              ++ spaces pad
            /\ len (completion r ++ lit "   "
                    ++ spaces (label_column
                                 [{| completion := lit "foo";
                                     snippet := lit "foo()";
                                     row := 3; column := 10;
                                     path := lit "/x.rs";
                                     type := lit "Function";
                                     context := lit "fn foo()" |}]
                               - len (completion r) - len (type r))
                    ++ type r)
               = label_column
                   [{| completion := lit "foo"; snippet := lit "foo()";
                       row := 3; column := 10; path := lit "/x.rs";
                       type := lit "Function";
                       context := lit "fn foo()" |}] + 3)
    [(lit "foo   Function : fn foo()", lit "foo()")]
    (sorted cmp
       [{| completion := lit "foo"; snippet := lit "foo()"; row := 3;
           column := 10; path := lit "/x.rs"; type := lit "Function";
           context := lit "fn foo()" |}]).
Proof.
  refine (completion_rows_aligned (example_host missing_racer)
    [{| completion := lit "foo"; snippet := lit "foo()"; row := 3;
        column := 10; path := lit "/x.rs"; type := lit "Function";
        context := lit "fn foo()" |}]
    [(lit "foo   Function : fn foo()", lit "foo()")] 24 _).
  reflexivity.
Defined.

(** X16. The first row is padded with spaces so that no row is more than
    two characters longer than it; the other rows are left as they
    are. *)
Theorem first_row_spans_popup (h : Host) (raw_results : list Result)
    (rows : list (str * str)) (flags : Z) :
  format_completions h raw_results = Some (rows, flags) ->
  exists first others,
    rows = first :: others
    /\ forall row, row ∈ rows -> len (fst row) <= len (fst first) + 2.
Proof.
  rewrite format_completions_unfold. cbv zeta.
  destruct (sorted cmp raw_results) as [|r0 rs]; [done|].
  set (L := label_column raw_results).
  set (results := List.map (fun r => (display_line L r, snippet r)) (r0 :: rs)).
  destruct (foldl_max_spec (fun p : str * str => len (fst p)) results 0)
    as (H0 & Hall & _). cbv zeta in Hall, H0.
  set (longest := foldl (fun a p => Z.max a (len (fst p))) 0 results) in *.
  assert (Hrest : forall row,
            row ∈ List.map (fun r => (display_line L r, snippet r)) rs ->
            len (fst row) <= longest).
  { intros row Hrow. apply Hall. subst results. cbn [List.map]. by right. }
  assert (Hfirst : len (display_line L r0) <= longest).
  { apply (Hall (display_line L r0, snippet r0)). subst results.
    cbn [List.map]. by left. }
  clearbody longest. clear Hall results.
  set (pad := Z.max 0 (longest - len (display_line L r0) - 2)).
  intros [= <- _]. eexists _, _. split; [reflexivity|].
  intros row Hrow.
  assert (Hlen : len (display_line L r0 ++ spaces pad)
                 = len (display_line L r0) + pad)
    by (rewrite len_app, len_spaces; lia).
  apply elem_of_cons in Hrow as [->|Hrow].
  - change (len (display_line L r0 ++ spaces pad)
            <= len (display_line L r0 ++ spaces pad) + 2). lia.
  - specialize (Hrest _ Hrow).
    change (len (fst row) <= len (display_line L r0 ++ spaces pad) + 2).
    lia.
Qed.

Lemma first_row_spans_popup_witness :
  exists first others,
    [(lit "a   Module        ", lit "a"); (lit "bc    Enum : enum bc", lit "bc")]
      = first :: others
    /\ forall row,
         row ∈ [(lit "a   Module        ", lit "a");
                (lit "bc    Enum : enum bc", lit "bc")] ->
         len (fst row) <= len (fst first) + 2.
Proof.
  refine (first_row_spans_popup (example_host missing_racer)
    [{| completion := lit "bc"; snippet := lit "bc"; row := 1; column := 1;
        path := lit "/x.rs"; type := lit "Enum"; context := lit "enum bc" |};
     {| completion := lit "a"; snippet := lit "a"; row := 2; column := 1;
        path := lit "/x.rs"; type := lit "Module"; context := lit "/a.rs" |}]
    _ 24 _).
  reflexivity.
Defined.

(** * The definition request *)

(** X17. Normalising a path twice is normalising it once. On Windows the
    result always starts with a drive ([c:] is put in front of a path
    without one, a path with a drive is kept); elsewhere the path is
    never changed. *)
Theorem normalize_path_idempotent (h : Host) (p : str) :
  normalize_path h (normalize_path h p) = normalize_path h p
  /\ (platform h = lit "windows" ->
      match_drive (interp h) (normalize_path h p) = true)
  /\ (platform h <> lit "windows" -> normalize_path h p = p).
Proof.
  unfold normalize_path, str_eqb.
  destruct (bool_decide_reflect (platform h = lit "windows")) as [Hw|Hw];
    cbn [andb].
  - destruct (match_drive (interp h) p) eqn:Hp; cbn [negb].
    + rewrite Hp. cbn [negb]. by repeat split.
    + change (match_drive (interp h) (lit "c:" ++ p)) with true.
      cbn [negb]. by repeat split.
  - by repeat split.
Qed.

Lemma grows_refl {A} (l : list A) : grows_by_at_most_one l l.
Proof. exists []. split; [by rewrite app_nil_r | simpl; lia]. Qed.

Lemma grows_one {A} (l : list A) (x : A) : grows_by_at_most_one l (l ++ [x]).
Proof. exists [x]. split; [done | simpl; lia]. Qed.

(** What [run_racer] can do to the world: nothing, one spawn, or one
    spawn and one printed report with an empty result. *)
Lemma run_racer_worlds (h : Host) (settings : Settings) (view : View)
    (cmd_list : list str) (w : World) :
  exists call report,
    let '(r, w') := run_racer h settings view cmd_list w in
    w' = w
    \/ w' = add_spawned call w
    \/ (r = Ok [] /\ w' = add_printed report (add_spawned call w)).
Proof.
  destruct cmd_list as [|cmd0 args].
  { exists (racer_call h settings [] []), []. by left. }
  destruct (determine_context_path h view) as [context_path|e] eqn:Hctx.
  - rewrite (run_racer_unfold _ _ _ _ _ _ _ Hctx). cbv zeta.
    exists (racer_call h settings (cmd0 :: args) context_path).
    destruct (Popen h _) as [process|e];
      [|exists []; by right; left].
    destruct (utf8_encode (buffer view)) as [input|e];
      [|exists []; by right; left].
    destruct (process input) as [[output err] exit_code].
    destruct (exit_code =? 0).
    + exists []. by right; left.
    + eexists. right; right. by split.
  - exists (racer_call h settings [] []), [].
    unfold run_racer, mbind, M_bind, lift. cbn [index lookup list_lookup].
    rewrite Hctx. by left.
Qed.

(** X18. Whatever racer and the editor do, one request starts at most
    one process and prints at most one line. A completion request never
    opens a file; a definition request opens at most one, and none when
    it has printed something. *)
Theorem requests_bounded_effects (h : Host) (settings : Settings)
    (view : View) (w : World) :
  (forall prefix locations,
      let w' := snd (on_query_completions h settings view prefix locations w) in
      grows_by_at_most_one (spawned w) (spawned w')
      /\ grows_by_at_most_one (printed w) (printed w')
      /\ opened w' = opened w)
  /\ (let w' := snd (RustGotoDefinitionCommand_run h settings view w) in
      grows_by_at_most_one (spawned w) (spawned w')
      /\ grows_by_at_most_one (printed w) (printed w')
      /\ grows_by_at_most_one (opened w) (opened w')
      /\ (opened w' <> opened w -> printed w' = printed w)).
Proof.
  split.
  - intros prefix [|location others]; cbv zeta.
    { cbn. auto using grows_refl. }
    destruct (match_selector view location (lit "source.rust")) eqn:Hsel.
    2:{ rewrite (non_rust_completions h settings view prefix
                   location others w Hsel).
        cbn. auto using grows_refl. }
    destruct (rowcol view location) as [r c] eqn:Hrc.
    rewrite (on_query_completions_unfold _ _ _ _ _ _ _ _ _ Hsel Hrc).
    destruct (run_racer_worlds h settings view
                [lit "complete-with-snippet"; str_of_int (r + 1); str_of_int c]
                w) as (call & report & Hw).
    destruct (run_racer _ _ _ _ w) as [res w1].
    destruct Hw as [->|[->|[-> ->]]].
    + destruct res as [raw|[]]; cbn;
        auto using grows_refl, grows_one.
    + destruct res as [raw|[]]; cbn;
        auto using grows_refl, grows_one.
    + cbn. auto using grows_refl, grows_one.
  - cbv zeta. destruct (sel view) as [|region others] eqn:Hs.
    { unfold RustGotoDefinitionCommand_run, mbind, M_bind, lift.
      rewrite Hs. cbn. auto 6 using grows_refl. }
    destruct (rowcol view (begin region)) as [r c] eqn:Hrc.
    rewrite (goto_definition_unfold _ _ _ _ _ _ _ _ Hs Hrc).
    destruct (run_racer_worlds h settings view
                [lit "find-definition"; str_of_int (r + 1); str_of_int c]
                w) as (call & report & Hw).
    destruct (run_racer _ _ _ _ w) as [res w1].
    destruct Hw as [->|[->|[-> ->]]].
    + destruct res as [[|result [|? ?]]|e]; cbn;
        auto 6 using grows_refl, grows_one.
    + destruct res as [[|result [|? ?]]|e]; cbn;
        auto 6 using grows_refl, grows_one.
    + cbn. repeat split; auto using grows_refl, grows_one. done.
Qed.

(** * The requests from end to end *)

(** X19. A completion request on a Rust buffer, when racer exits with
    status zero and its output parses as [;]-separated [MATCH] lines,
    returns the formatted rows of exactly these records; its one effect
    is the spawned process. *)
Theorem completion_request_end_to_end (h : Host) (settings : Settings)
    (view : View) (prefix : str) (location : Z) (others : list Z) (r c : Z)
    (context_path : str) (process : Process) (input output err : bytes)
    (rs : list Result) (w : World) :
  match_selector view location (lit "source.rust") = true ->
  rowcol view location = (r, c) ->
  determine_context_path h view = Ok context_path ->
  Popen h (racer_call h settings
             [lit "complete-with-snippet"; str_of_int (r + 1); str_of_int c]
             context_path) = Ok process ->
  utf8_encode (buffer view) = Ok input ->
  process input = (output, err, 0) ->
  parse_lines (interp h) true (splitlines output) [] = Ok rs ->
  on_query_completions h settings view prefix (location :: others) w
  = (Ok (format_completions h rs),
     add_spawned
       (racer_call h settings
          [lit "complete-with-snippet"; str_of_int (r + 1); str_of_int c]
          context_path) w).
Proof.
  intros Hsel Hrc Hctx Hspawn Hin Hout Hparse.
  rewrite (on_query_completions_unfold _ _ _ _ _ _ _ _ _ Hsel Hrc).
  rewrite (run_racer_unfold _ _ _ _ _ _ _ Hctx). cbv zeta.
  rewrite Hspawn, Hin, Hout. cbn [Z.eqb].
  change (str_eqb (lit "complete-with-snippet") (lit "complete-with-snippet"))
    with true.
  by rewrite Hparse.
Qed.

Lemma completion_request_end_to_end_witness :
  on_query_completions
    (example_host
       (example_racer
          (blit "MATCH foo;foo_snip;3;10;/tmp/x.rs;Function;fn foo()") 0))
    example_settings example_view (lit "fo") [0] empty_world
  = (Ok (format_completions
           (example_host
              (example_racer
                 (blit "MATCH foo;foo_snip;3;10;/tmp/x.rs;Function;fn foo()")
                 0))
           [{| completion := lit "foo"; snippet := lit "foo_snip"; row := 3;
               column := 10; path := lit "/tmp/x.rs"; type := lit "Function";
               context := lit "fn foo()" |}]),
     add_spawned
       (racer_call
          (example_host
             (example_racer
                (blit "MATCH foo;foo_snip;3;10;/tmp/x.rs;Function;fn foo()")
                0))
          example_settings
          [lit "complete-with-snippet"; str_of_int (0 + 1); str_of_int 0]
          (lit "/tmp/x.rs"))
       empty_world).
Proof.
  refine (completion_request_end_to_end
    (example_host
       (example_racer
          (blit "MATCH foo;foo_snip;3;10;/tmp/x.rs;Function;fn foo()") 0))
    example_settings example_view (lit "fo") 0 [] 0 0 (lit "/tmp/x.rs")
    (fun _ => (blit "MATCH foo;foo_snip;3;10;/tmp/x.rs;Function;fn foo()",
               [], 0))
    (blit "fn main() {}")
    (blit "MATCH foo;foo_snip;3;10;/tmp/x.rs;Function;fn foo()") []
    [{| completion := lit "foo"; snippet := lit "foo_snip"; row := 3;
        column := 10; path := lit "/tmp/x.rs"; type := lit "Function";
        context := lit "fn foo()" |}]
    empty_world _ _ _ _ _ _ _).
  - reflexivity.
  - reflexivity.
  - reflexivity.
  - reflexivity.
  - reflexivity.
  - reflexivity.
  - reflexivity.
Defined.

(** X20. A definition request, when racer exits with status zero and its
    output parses as [,]-separated [MATCH] lines, opens the position of
    the record when there is exactly one, and otherwise only spawns the
    process: the lines are split on commas here, not on semicolons. *)
Theorem definition_request_end_to_end (h : Host) (settings : Settings)
    (view : View) (region : Z * Z) (others : list (Z * Z)) (r c : Z)
    (context_path : str) (process : Process) (input output err : bytes)
    (rs : list Result) (w : World) :
  sel view = region :: others ->
  rowcol view (begin region) = (r, c) ->
  determine_context_path h view = Ok context_path ->
  Popen h (racer_call h settings
             [lit "find-definition"; str_of_int (r + 1); str_of_int c]
             context_path) = Ok process ->
  utf8_encode (buffer view) = Ok input ->
  process input = (output, err, 0) ->
  parse_lines (interp h) false (splitlines output) [] = Ok rs ->
  let w1 :=
    add_spawned
      (racer_call h settings
         [lit "find-definition"; str_of_int (r + 1); str_of_int c]
         context_path) w in
  RustGotoDefinitionCommand_run h settings view w
  = (Ok tt,
     match rs with
     | [result] =>
         add_opened
           (normalize_path h (path result) ++ lit ":"
            ++ str_of_int (row result) ++ lit ":"
            ++ str_of_int (column result))
           (ENCODED_POSITION h) w1
     | _ => w1
     end).
Proof.
  intros Hsel Hrc Hctx Hspawn Hin Hout Hparse w1.
  rewrite (goto_definition_unfold _ _ _ _ _ _ _ _ Hsel Hrc).
  rewrite (run_racer_unfold _ _ _ _ _ _ _ Hctx). cbv zeta.
  rewrite Hspawn, Hin, Hout. cbn [Z.eqb].
  change (str_eqb (lit "find-definition") (lit "complete-with-snippet"))
    with false.
  rewrite Hparse. by destruct rs as [|result [|? ?]].
Qed.

Lemma definition_request_end_to_end_witness :
  RustGotoDefinitionCommand_run
    (example_host
       (example_racer
          (blit "MATCH foo,5,2,/proj/src/lib.rs,Function,fn foo()") 0))
    example_settings example_view empty_world
  = (Ok tt,
     add_opened
       (normalize_path
          (example_host
             (example_racer
                (blit "MATCH foo,5,2,/proj/src/lib.rs,Function,fn foo()") 0))
          (lit "/proj/src/lib.rs")
        ++ lit ":" ++ str_of_int 5 ++ lit ":" ++ str_of_int 2)
       1
       (add_spawned
          (racer_call
             (example_host
                (example_racer
                   (blit "MATCH foo,5,2,/proj/src/lib.rs,Function,fn foo()")
                   0))
             example_settings
             [lit "find-definition"; str_of_int (0 + 1); str_of_int 0]
             (lit "/tmp/x.rs"))
          empty_world)).
Proof.
  refine (definition_request_end_to_end
    (example_host
       (example_racer
          (blit "MATCH foo,5,2,/proj/src/lib.rs,Function,fn foo()") 0))
    example_settings example_view (0, 0) [] 0 0 (lit "/tmp/x.rs")
    (fun _ => (blit "MATCH foo,5,2,/proj/src/lib.rs,Function,fn foo()",
               [], 0))
    (blit "fn main() {}")
    (blit "MATCH foo,5,2,/proj/src/lib.rs,Function,fn foo()") []
    [{| completion := lit "foo"; snippet := []; row := 5; column := 2;
        path := lit "/proj/src/lib.rs"; type := lit "Function";
        context := lit "fn foo()" |}]
    empty_world _ _ _ _ _ _ _).
  - reflexivity.
  - reflexivity.
  - reflexivity.
  - reflexivity.
  - reflexivity.
  - reflexivity.
  - reflexivity.
Defined.

(** * Text on the command line and on the pipes *)

Lemma digits_fuel_length (fuel : nat) (n : N) (acc : str) (k : N) :
  (1 <= k)%N -> (n < 10 ^ k)%N ->
  (N.of_nat (length (digits_fuel fuel n acc)) <= k + N.of_nat (length acc))%N.
Proof.
  revert n acc k. induction fuel as [|f IH]; intros n acc k Hk Hn.
  - cbn [digits_fuel]. lia.
  - cbn [digits_fuel]. destruct (N.eqb_spec (n / 10) 0) as [Hz|Hz].
    + cbn [length]. lia.
    + assert (Hk2 : (2 <= k)%N).
      { destruct (N.le_gt_cases 2 k) as [|Hlt]; [done|].
        replace k with 1%N in Hn by lia. exfalso. apply Hz.
        apply N.div_small. by rewrite N.pow_1_r in Hn. }
      assert (Hq : (n / 10 < 10 ^ (k - 1))%N).
      { apply N.Div0.div_lt_upper_bound.
        rewrite <- N.pow_succ_r'. by replace (N.succ (k - 1)) with k by lia. }
      specialize (IH (n / 10)%N ((48 + n mod 10)%N :: acc) (k - 1)%N
                    ltac:(lia) Hq).
      cbn [length] in IH. lia.
Qed.

(** X21. The decimal text of an integer of at most 4300 digits, as the
    requests put row and column on the command line and as racer prints
    them in its lines, is read back by [int()] as the same integer,
    whatever the Unicode tables and the literal grammar of the
    interpreter; it has at most 4300 digits, which no interpreter
    refuses, and it contains neither [;] nor [,], so it never breaks a
    field. *)
Theorem decimal_text_roundtrip (py : Interp) (z : Z) :
  Z.abs z < 10 ^ 4300 ->
  int_of_str py (str_of_int z) = Ok z
  /\ (Z.of_nat (length (str_of_int z))
      <= 4300 + (if z <? 0 then 1 else 0))
  /\ free_of (chr ";") (str_of_int z)
  /\ free_of (chr ",") (str_of_int z).
Proof.
  intros Hz. split; [apply int_of_str_of_int|].
  split; [|split; by apply str_of_int_free].
  assert (Hd : forall p, Z.pos p < 10 ^ 4300 ->
            Z.of_nat (length (digits (N.pos p))) <= 4300).
  { intros p Hp. unfold digits.
    pose proof (digits_fuel_length (S (N.to_nat (N.log2 (N.pos p))))
                  (N.pos p) [] 4300 ltac:(lia)) as Hlen.
    cbn [length] in Hlen.
    assert (Hn : (N.pos p < 10 ^ 4300)%N).
    { apply N2Z.inj_lt. by rewrite N2Z.inj_pow. }
    specialize (Hlen Hn). lia. }
  destruct z as [|p|p]; cbn [str_of_int length Z.ltb Z.compare].
  - lia.
  - specialize (Hd p Hz). lia.
  - specialize (Hd p Hz). lia.
Qed.

Lemma decimal_text_roundtrip_witness :
  int_of_str example_interp (str_of_int (-42)) = Ok (-42)
  /\ (Z.of_nat (length (str_of_int (-42)))
      <= 4300 + (if -42 <? 0 then 1 else 0))
  /\ free_of (chr ";") (str_of_int (-42))
  /\ free_of (chr ",") (str_of_int (-42)).
Proof.
  refine (decimal_text_roundtrip example_interp (-42) _).
  vm_compute. reflexivity.
Defined.

Lemma to_N_byte_of (n : N) : (n < 256)%N -> Byte.to_N (byte_of n) = n.
Proof.
  intros Hn. unfold byte_of.
  destruct (Byte.of_N n) as [b|] eqn:E; [by apply Byte.to_of_N|].
  apply Byte.of_N_None_iff in E. lia.
Qed.

Lemma is_cont_byte_of (n : N) :
  (n < 64)%N -> is_cont (byte_of (128 + n)) = true
                /\ cont_bits (byte_of (128 + n)) = n.
Proof.
  intros Hn. unfold is_cont, cont_bits. rewrite to_N_byte_of by lia.
  split; [|lia]. apply andb_true_iff. split; apply N.leb_le; lia.
Qed.

Lemma div_64_bounds (c : N) :
  (c = 64 * (c / 64) + c mod 64)%N /\ (c mod 64 < 64)%N.
Proof.
  split; [apply N.div_mod; lia | apply N.mod_upper_bound; lia].
Qed.

Lemma utf8_encode_cons (c : codepoint) (s : str) (b : bytes) :
  utf8_encode (c :: s) = Ok b ->
  exists rest,
    utf8_encode s = Ok rest
    /\ is_scalar c = true
    /\ utf8_decode b = cons c <$> utf8_decode rest.
Proof.
  cbn [utf8_encode]. destruct (utf8_encode s) as [rest|]; [|done].
  cbn [mbind res_bind]. intros H. exists rest. split; [done|].
  unfold is_scalar.
  destruct (div_64_bounds c) as [Hc0 Hm0].
  destruct (div_64_bounds (c / 64)) as [Hc1 Hm1].
  destruct (div_64_bounds (c / 64 / 64)) as [Hc2 Hm2].
  assert (E4096 : (c / 4096 = c / 64 / 64)%N)
    by (by rewrite N.Div0.div_div).
  assert (E262144 : (c / 262144 = c / 64 / 64 / 64)%N)
    by (by rewrite !N.Div0.div_div).
  rewrite ?E4096, ?E262144 in H.
  set (m0 := (c mod 64)%N) in *. set (q0 := (c / 64)%N) in *.
  set (m1 := (q0 mod 64)%N) in *. set (q1 := (q0 / 64)%N) in *.
  set (m2 := (q1 mod 64)%N) in *. set (q2 := (q1 / 64)%N) in *.
  destruct (N.ltb_spec c 128) as [H1|H1].
  { injection H as <-. split.
    - apply andb_true_iff. split; [apply N.ltb_lt; lia|].
      apply negb_true_iff, andb_false_iff. left. apply N.leb_gt. lia.
    - cbn [utf8_decode]. cbv zeta. rewrite to_N_byte_of by lia.
      by rewrite (proj2 (N.ltb_lt c 128) H1). }
  destruct (N.ltb_spec c 2048) as [H2|H2].
  { injection H as <-. split.
    - apply andb_true_iff. split; [apply N.ltb_lt; lia|].
      apply negb_true_iff, andb_false_iff. left. apply N.leb_gt. lia.
    - cbn [utf8_decode]. cbv zeta. rewrite to_N_byte_of by lia.
      destruct (is_cont_byte_of m0 Hm0) as [-> ->].
      rewrite (proj2 (N.ltb_ge _ 128)) by lia.
      rewrite (proj2 (N.ltb_ge _ 194)) by lia.
      rewrite (proj2 (N.ltb_lt _ 224)) by lia.
      do 3 f_equal. lia. }
  destruct (N.ltb_spec c 65536) as [H3|H3].
  { destruct ((55296 <=? c)%N && (c <=? 57343)%N) eqn:Hsur; [done|].
    injection H as <-. split.
    - apply andb_true_iff. split; [apply N.ltb_lt; lia | done].
    - cbn [utf8_decode]. cbv zeta. rewrite to_N_byte_of by lia.
      destruct (is_cont_byte_of m0 Hm0) as [-> ->].
      destruct (is_cont_byte_of m1 Hm1) as [-> ->].
      rewrite (proj2 (N.ltb_ge _ 128)) by lia.
      rewrite (proj2 (N.ltb_ge _ 194)) by lia.
      rewrite (proj2 (N.ltb_ge _ 224)) by lia.
      rewrite (proj2 (N.ltb_lt _ 240)) by lia.
      replace ((224 + q1 - 224) * 4096 + m1 * 64 + m0)%N with c by lia.
      rewrite Hsur. rewrite (proj2 (N.leb_le 2048 c)) by lia. done. }
  destruct (N.ltb_spec c 1114112) as [H4|H4]; [|done].
  injection H as <-. split.
  - cbn [andb]. apply negb_true_iff, andb_false_iff. right.
    apply N.leb_gt. lia.
  - cbn [utf8_decode]. cbv zeta. rewrite to_N_byte_of by lia.
    destruct (is_cont_byte_of m0 Hm0) as [-> ->].
    destruct (is_cont_byte_of m1 Hm1) as [-> ->].
    destruct (is_cont_byte_of m2 Hm2) as [-> ->].
    rewrite (proj2 (N.ltb_ge _ 128)) by lia.
    rewrite (proj2 (N.ltb_ge _ 194)) by lia.
    rewrite (proj2 (N.ltb_ge _ 224)) by lia.
    rewrite (proj2 (N.ltb_ge _ 240)) by lia.
    rewrite (proj2 (N.ltb_lt _ 245)) by lia.
    replace ((240 + q2 - 240) * 262144 + m2 * 4096 + m1 * 64 + m0)%N
      with c by lia.
    rewrite (proj2 (N.leb_le 65536 c)) by lia.
    by rewrite (proj2 (N.ltb_lt c 1114112)) by lia.
Qed.

Lemma utf8_encode_scalar (s : str) :
  Forall (fun c => is_scalar c = true) s -> exists b, utf8_encode s = Ok b.
Proof.
  induction 1 as [|c s Hc _ [rest IH]]; [by exists []|].
  cbn [utf8_encode]. rewrite IH. cbn [mbind res_bind].
  unfold is_scalar in Hc. apply andb_true_iff in Hc as [Hlt Hsur].
  apply negb_true_iff in Hsur. rewrite Hlt, Hsur.
  repeat match goal with
         | |- context [if ?c then _ else _] => destruct c
         end; by eexists.
Qed.

Lemma utf8_encode_raises (s : str) (e : exn) :
  utf8_encode s = Raise e -> e = UnicodeEncodeError.
Proof.
  revert e. induction s as [|c s IH]; intros e; [done|].
  cbn [utf8_encode]. destruct (utf8_encode s) as [rest|e'].
  - cbn [mbind res_bind].
    repeat match goal with
           | |- context [if ?c then _ else _] => destruct c
           end; try done; by intros [= <-].
  - cbn [mbind res_bind]. intros [= <-]. by apply IH.
Qed.

(** X22. The bytes written to the input of racer decode back to the
    buffer: UTF-8 decoding undoes UTF-8 encoding. Encoding succeeds
    exactly when every code point of the buffer is a Unicode scalar value
    (below U+110000 and no surrogate), and fails with
    [UnicodeEncodeError] otherwise. *)
Theorem buffer_bytes_decode_back (s : str) :
  (forall b, utf8_encode s = Ok b -> utf8_decode b = Ok s)
  /\ ((exists b, utf8_encode s = Ok b)
      <-> Forall (fun c => is_scalar c = true) s)
  /\ (forall e, utf8_encode s = Raise e -> e = UnicodeEncodeError).
Proof.
  split; [|split; [split|]].
  - induction s as [|c s IH]; intros b Hb.
    + by injection Hb as <-.
    + apply utf8_encode_cons in Hb as (rest & Hrest & _ & ->).
      by rewrite (IH _ Hrest).
  - intros [b Hb]. revert b Hb. induction s as [|c s IH]; intros b Hb.
    + constructor.
    + apply utf8_encode_cons in Hb as (rest & Hrest & Hc & _).
      constructor; [done | by eapply IH].
  - apply utf8_encode_scalar.
  - apply utf8_encode_raises.
Qed.

Lemma splitlines_from_line (cur l rest : bytes) :
  is_line l ->
  splitlines_from cur (l ++ Byte.x0a :: rest)
    = (rev cur ++ l) :: splitlines_from [] rest
  /\ splitlines_from cur (l ++ Byte.x0d :: Byte.x0a :: rest)
     = (rev cur ++ l) :: splitlines_from [] rest.
Proof.
  intros [Hn Hr]. revert cur.
  induction l as [|c l IH]; intros cur.
  - cbn [app splitlines_from]. by rewrite app_nil_r.
  - apply not_elem_of_cons in Hn as [Hcn Hn].
    apply not_elem_of_cons in Hr as [Hcr Hr].
    destruct (IH Hn Hr (c :: cur)) as [E1 E2].
    cbn [rev] in E1, E2. rewrite <- app_assoc in E1, E2. cbn [app] in E1, E2.
    cbn [app]. split.
    + rewrite <- E1. by destruct c.
    + rewrite <- E2. by destruct c.
Qed.

(** X23. Output whose lines end in line feeds, or in carriage return and
    line feed as on Windows, is split into exactly these lines, without
    the terminators and without an empty line at the end. *)
Theorem splitlines_of_terminated_lines (ls : list bytes) :
  Forall is_line ls ->
  splitlines (concat (List.map (fun l => l ++ [Byte.x0a]) ls)) = ls
  /\ splitlines (concat (List.map (fun l => l ++ [Byte.x0d; Byte.x0a]) ls))
     = ls.
Proof.
  unfold splitlines. induction 1 as [|l ls Hl _ [IH1 IH2]]; [done|].
  cbn [List.map concat]. rewrite <- !app_assoc. cbn [app].
  destruct (splitlines_from_line [] l
              (concat (List.map (fun l => l ++ [Byte.x0a]) ls)) Hl)
    as [-> _].
  destruct (splitlines_from_line [] l
              (concat (List.map (fun l => l ++ [Byte.x0d; Byte.x0a]) ls)) Hl)
    as [_ ->].
  cbn [rev app]. by rewrite IH1, IH2.
Qed.

Lemma splitlines_of_terminated_lines_witness :
  splitlines
    (concat (List.map (fun l => l ++ [Byte.x0a]) [blit "MATCH a"; []; blit "END"]))
    = [blit "MATCH a"; []; blit "END"]
  /\ splitlines
       (concat (List.map (fun l => l ++ [Byte.x0d; Byte.x0a])
                  [blit "MATCH a"; []; blit "END"]))
     = [blit "MATCH a"; []; blit "END"].
Proof.
  refine (splitlines_of_terminated_lines [blit "MATCH a"; []; blit "END"] _).
  repeat (apply List.Forall_cons; [split; compute_done|]).
  apply List.Forall_nil.
Defined.
